(** * ideviceinfo: the [find_driver] USB serial probe and the option loop of [main]

    A shallow embedding of [tools/ideviceinfo.c].  The USB access layer
    (libusb-win32, [lusb0_usb.h]), libimobiledevice/lockdownd, [getopt_long]
    and [atoi] are external libraries: they appear as oracle records and
    section variables whose answers the program consumes.  Every call the
    program makes to them, and every [printf], is recorded in a trace of
    events, so that statements about what is opened, closed, printed or
    never attempted can be phrased on the trace. *)

From Stdlib Require Import ZArith List String Ascii Bool Lia Permutation.
From Stdlib Require Import DecimalString.
Import ListNotations.

Local Open Scope Z_scope.

(** ** C strings *)

Module CString.

(** A [string] stands for the bytes found at a [char *]; the C string it
    denotes stops at the first NUL byte (or at the end of the known bytes). *)

Definition code (c : ascii) : Z := Z.of_N (N_of_ascii c).

Definition is_nul (c : ascii) : bool := code c =? 0.

Fixpoint c_str (s : string) : string :=
  match s with
  | EmptyString => EmptyString
  | String c r => if is_nul c then EmptyString else String c (c_str r)
  end.

(** [strcmp]: bytes are compared as unsigned chars up to and including the
    terminator; the result is the difference at the first mismatch. *)
Fixpoint strcmp (s1 s2 : string) : Z :=
  match s1, s2 with
  | EmptyString, EmptyString => 0
  | EmptyString, String c2 _ => 0 - code c2
  | String c1 _, EmptyString => code c1
  | String c1 r1, String c2 r2 =>
      if code c1 =? code c2
      then (if is_nul c1 then 0 else strcmp r1 r2)
      else code c1 - code c2
  end.

(** [!*s]: the first byte of [s] is the terminator. *)
Definition is_empty (s : string) : bool :=
  match s with
  | EmptyString => true
  | String c _ => is_nul c
  end.

(** [strrchr (s, ch)] for a non-NUL [ch]: the bytes after the last [ch]. *)
Fixpoint strrchr_tail (ch : ascii) (s : string) : option string :=
  match s with
  | EmptyString => None
  | String c r =>
      if is_nul c then None
      else match strrchr_tail ch r with
           | Some t => Some t
           | None => if Ascii.eqb c ch then Some r else None
           end
  end.

End CString.

Import CString.

(** ** The USB access layer as the program sees it *)

Definition VID_APPLE : Z := 0x5ac.

(** The three fields of [struct usb_device_descriptor] that are read:
    two unsigned 16-bit ids and an unsigned 8-bit string index. *)
Record usb_device_descriptor : Type := {
  idVendor : Z;
  idProduct : Z;
  iSerialNumber : Z
}.

Record usb_device : Type := {
  devnum : Z;
  descriptor : usb_device_descriptor
}.

Record usb_bus : Type := {
  location : Z;
  devices : list usb_device
}.

Definition wf_descriptor (d : usb_device_descriptor) : Prop :=
  0 <= idVendor d < 65536 /\ 0 <= idProduct d < 65536 /\
  0 <= iSerialNumber d < 256.

(** [usb_dev_handle *]: an opaque non-null pointer. *)
Definition usb_dev_handle : Type := Z.

(** What the library answers.  [usb_get_string_simple h index buflen] gives
    the returned [int] together with the bytes found in the caller's buffer
    once the call is over; when the call fails the library has written
    nothing, and those bytes are whatever the uninitialised array held. *)
Record usb_layer : Type := {
  driver_major : Z;
  busses : list usb_bus;
  usb_open : usb_device -> option usb_dev_handle;
  usb_get_string_simple : usb_dev_handle -> Z -> Z -> Z * string
}.

Definition with_busses (usb : usb_layer) (bs : list usb_bus) : usb_layer :=
  {| driver_major := driver_major usb;
     busses := bs;
     usb_open := usb_open usb;
     usb_get_string_simple := usb_get_string_simple usb |}.

(** The devices in enumeration order: bus by bus, device by device. *)
Definition all_devices (usb : usb_layer) : list usb_device :=
  List.concat (map devices (busses usb)).

(** ** Events *)

Definition plist_t : Type := Z.

Inductive stream : Type := stdout | stderr.

Inductive event : Type :=
| Fprintf (f : stream) (text : string)
| UsbInit
| UsbGetVersion
| UsbFindBusses
| UsbFindDevices
| UsbGetBusses
| UsbOpen (dev : usb_device) (handle : option usb_dev_handle)
| UsbGetStringSimple (handle : usb_dev_handle) (index buflen ret : Z)
| UsbClose (handle : usb_dev_handle)
| IdeviceSetDebugLevel (level : Z)
| IdeviceNewWithOptions (udid : option string) (use_network : bool)
| IdeviceFree
| LockdowndClientNew (label : string)
| LockdowndClientNewWithHandshake (label : string)
| LockdowndGetValue (domain key : option string)
| LockdowndSetValue (domain key : string) (value : bool)
| LockdowndClientFree
| PlistFree (node : plist_t).

Definition trace : Type := list event.

Definition printf (text : string) : event := Fprintf stdout text.

(** Everything written to standard output, in order. *)
Fixpoint stdout_of (tr : trace) : string :=
  match tr with
  | [] => EmptyString
  | Fprintf stdout text :: tr' => (text ++ stdout_of tr')%string
  | _ :: tr' => stdout_of tr'
  end.

(** A computation that has emitted [tr] and carries [a]. *)
Definition emit {A : Type} (tr : trace) (r : trace * A) : trace * A :=
  (tr ++ fst r, snd r).

(** ** find_driver *)

Section FindDriver.

Variable usb : usb_layer.

(** The filter of the inner loop: [continue] unless this holds. *)
Definition candidate (pid : Z) (dev : usb_device) : bool :=
  negb ((negb (idVendor (descriptor dev) =? VID_APPLE))
        || (negb (idProduct (descriptor dev) =? pid))).

(** The body of [if (handle) { ... }]: the calls made and the final value
    of the local [result]. *)
Definition probe (udid : string) (dev : usb_device) (handle : usb_dev_handle)
  : trace * bool :=
  let '(ret, dev_serial) :=
    usb_get_string_simple usb handle (iSerialNumber (descriptor dev)) 100 in
  let result :=
    if negb (ret =? 0)
    then (if strcmp udid dev_serial =? 0 then true else false)
    else false in
  ([UsbGetStringSimple handle (iSerialNumber (descriptor dev)) 100 ret;
    UsbClose handle], result).

(** The inner [for (dev = bus->devices; dev; dev = dev->next)].  The boolean
    is [true] when the function has printed TRUE and returned. *)
Fixpoint scan_devices (pid : Z) (udid : string) (devs : list usb_device)
  : trace * bool :=
  match devs with
  | [] => ([], false)
  | dev :: next =>
      if negb (candidate pid dev) then scan_devices pid udid next
      else
        match usb_open usb dev with
        | Some handle =>
            let '(tr, result) := probe udid dev handle in
            if result
            then (UsbOpen dev (Some handle) :: tr ++ [printf "TRUE"], true)
            else emit (UsbOpen dev (Some handle) :: tr)
                      (scan_devices pid udid next)
        | None => emit [UsbOpen dev None] (scan_devices pid udid next)
        end
  end.

(** The outer [for (bus; bus; bus = bus->next)]. *)
Fixpoint scan_busses (pid : Z) (udid : string) (bs : list usb_bus)
  : trace * bool :=
  match bs with
  | [] => ([], false)
  | bus :: next =>
      let '(tr, returned) := scan_devices pid udid (devices bus) in
      if returned then (tr, true)
      else emit tr (scan_busses pid udid next)
  end.

(** [find_driver (pid, udid)]; [None] is the NULL pointer. *)
Definition find_driver (pid : Z) (udid : option string) : trace :=
  match udid with
  | None => [printf "FALSE"]
  | Some udid =>
      [UsbInit; UsbGetVersion] ++
      (if driver_major usb =? -1 then [printf "FALSE"]
       else
         [UsbFindBusses; UsbFindDevices; UsbGetBusses] ++
         (let '(tr, returned) := scan_busses pid udid (busses usb) in
          if returned then tr else tr ++ [printf "FALSE"]))
  end.

(** The loop's test on one device, as a predicate: the device passes the
    filter, opens, the read returns non-zero and the buffer compares equal. *)
Definition accepts (pid : Z) (udid : string) (dev : usb_device) : bool :=
  candidate pid dev &&
  match usb_open usb dev with
  | Some handle => snd (probe udid dev handle)
  | None => false
  end.

(** The string the layer reports for the device's serial-number descriptor:
    the device opens and the read succeeds (a length, not a negative error). *)
Definition serial_descriptor (dev : usb_device) : option string :=
  match usb_open usb dev with
  | Some handle =>
      let '(ret, dev_serial) :=
        usb_get_string_simple usb handle (iSerialNumber (descriptor dev)) 100 in
      if 0 <=? ret then Some (c_str dev_serial) else None
  | None => None
  end.

End FindDriver.

(** The match as the specification words it: the fixed vendor, the queried
    product, and a serial-number string equal to the identity. *)
Definition spec_match (usb : usb_layer) (pid : Z) (udid : string)
           (dev : usb_device) : Prop :=
  idVendor (descriptor dev) = VID_APPLE /\
  idProduct (descriptor dev) = pid /\
  serial_descriptor usb dev = Some (c_str udid).

(** ** Reading a trace *)

(** The devices on which [usb_open] was called, in order. *)
Fixpoint open_attempts (tr : trace) : list usb_device :=
  match tr with
  | [] => []
  | UsbOpen dev _ :: tr' => dev :: open_attempts tr'
  | _ :: tr' => open_attempts tr'
  end.

Definition is_usb_call (e : event) : bool :=
  match e with
  | UsbInit | UsbGetVersion | UsbFindBusses | UsbFindDevices | UsbGetBusses
  | UsbOpen _ _ | UsbGetStringSimple _ _ _ _ | UsbClose _ => true
  | _ => false
  end.

Definition is_connection_call (e : event) : bool :=
  match e with
  | IdeviceNewWithOptions _ _ | LockdowndClientNew _
  | LockdowndClientNewWithHandshake _ | LockdowndGetValue _ _
  | LockdowndSetValue _ _ _ => true
  | _ => false
  end.

(** Handle discipline.  [cur] is the handle that is open and not yet closed.
    A trace is accepted when no handle is opened while another is open, a
    descriptor is only read through the open handle, only the open handle is
    closed, nothing is printed while a handle is open, and no handle is open
    at the end. *)
Fixpoint handles_ok (cur : option usb_dev_handle) (tr : trace) : bool :=
  match tr with
  | [] => match cur with None => true | Some _ => false end
  | UsbOpen _ (Some h) :: tr' =>
      match cur with None => handles_ok (Some h) tr' | Some _ => false end
  | UsbGetStringSimple h _ _ _ :: tr' =>
      match cur with
      | Some h' => (h =? h') && handles_ok cur tr'
      | None => false
      end
  | UsbClose h :: tr' =>
      match cur with
      | Some h' => (h =? h') && handles_ok None tr'
      | None => false
      end
  | Fprintf _ _ :: tr' =>
      match cur with None => handles_ok None tr' | Some _ => false end
  | _ :: tr' => handles_ok cur tr'
  end.

(** Number of successful opens and number of closes. *)
Fixpoint count_opened (tr : trace) : nat :=
  match tr with
  | [] => 0%nat
  | UsbOpen _ (Some _) :: tr' => S (count_opened tr')
  | _ :: tr' => count_opened tr'
  end.

Fixpoint count_closed (tr : trace) : nat :=
  match tr with
  | [] => 0%nat
  | UsbClose _ :: tr' => S (count_closed tr')
  | _ :: tr' => count_closed tr'
  end.

(** ** The command line tool *)

Definition TOOL_NAME : string := "ideviceinfo".
Definition FORMAT_KEY_VALUE : Z := 1.
Definition FORMAT_XML : Z := 2.
Definition LOCKDOWN_E_SUCCESS : Z := 0.
Definition IDEVICE_E_SUCCESS : Z := 0.

Definition nl : string := String (ascii_of_nat 10) EmptyString.

Definition domains : list string := [
  "com.apple.disk_usage";
  "com.apple.disk_usage.factory";
  "com.apple.mobile.battery";
  "com.apple.iqagent";
  "com.apple.purplebuddy";
  "com.apple.PurpleBuddy";
  "com.apple.mobile.chaperone";
  "com.apple.mobile.third_party_termination";
  "com.apple.mobile.lockdownd";
  "com.apple.mobile.lockdown_cache";
  "com.apple.xcode.developerdomain";
  "com.apple.international";
  "com.apple.mobile.data_sync";
  "com.apple.mobile.tethered_sync";
  "com.apple.mobile.mobile_application_usage";
  "com.apple.mobile.backup";
  "com.apple.mobile.nikita";
  "com.apple.mobile.restriction";
  "com.apple.mobile.user_preferences";
  "com.apple.mobile.sync_data_class";
  "com.apple.mobile.software_behavior";
  "com.apple.mobile.iTunes.SQLMusicLibraryPostProcessCommands";
  "com.apple.mobile.iTunes.accessories";
  "com.apple.mobile.internal";
  "com.apple.mobile.wireless_lockdown";
  "com.apple.fairplay";
  "com.apple.iTunes";
  "com.apple.mobile.iTunes.store";
  "com.apple.mobile.iTunes"
]%string.

(** The strings that [config.h] defines. *)
Record package : Type := {
  PACKAGE_VERSION : string;
  PACKAGE_URL : string;
  PACKAGE_BUGREPORT : string
}.

(** The answers of libimobiledevice.  Error codes are the library's enums
    as integers, 0 being success; a [None] node is the NULL [plist_t]. *)
Record imobiledevice : Type := {
  idevice_new_with_options : option string -> bool -> Z;
  lockdownd_client_new : string -> Z;
  lockdownd_client_new_with_handshake : string -> Z;
  lockdownd_strerror : Z -> string;
  lockdownd_get_value : option string -> option string -> Z * option plist_t;
  lockdownd_set_value : string -> string -> bool -> Z;
  plist_print_to_stream : plist_t -> string;
  plist_to_xml : plist_t -> string
}.

(** The locals of [main] that the option loop assigns. *)
Record locals : Type := {
  simple : Z;
  format : Z;
  udid : option string;
  use_network : Z;
  assistive_func : Z;
  assistive_enable : Z;
  domain : option string;
  key : option string
}.

Definition initial_locals : locals :=
  {| simple := 0; format := FORMAT_KEY_VALUE; udid := None; use_network := 0;
     assistive_func := 0; assistive_enable := 0; domain := None; key := None |}.

Definition set_udid (st : locals) (v : option string) : locals :=
  {| simple := simple st; format := format st; udid := v;
     use_network := use_network st; assistive_func := assistive_func st;
     assistive_enable := assistive_enable st; domain := domain st;
     key := key st |}.

Definition set_domain (st : locals) (v : option string) : locals :=
  {| simple := simple st; format := format st; udid := udid st;
     use_network := use_network st; assistive_func := assistive_func st;
     assistive_enable := assistive_enable st; domain := v; key := key st |}.

Definition set_key (st : locals) (v : option string) : locals :=
  {| simple := simple st; format := format st; udid := udid st;
     use_network := use_network st; assistive_func := assistive_func st;
     assistive_enable := assistive_enable st; domain := domain st;
     key := v |}.

Definition set_use_network (st : locals) (v : Z) : locals :=
  {| simple := simple st; format := format st; udid := udid st;
     use_network := v; assistive_func := assistive_func st;
     assistive_enable := assistive_enable st; domain := domain st;
     key := key st |}.

Definition set_format (st : locals) (v : Z) : locals :=
  {| simple := simple st; format := v; udid := udid st;
     use_network := use_network st; assistive_func := assistive_func st;
     assistive_enable := assistive_enable st; domain := domain st;
     key := key st |}.

Definition set_simple (st : locals) (v : Z) : locals :=
  {| simple := v; format := format st; udid := udid st;
     use_network := use_network st; assistive_func := assistive_func st;
     assistive_enable := assistive_enable st; domain := domain st;
     key := key st |}.

Definition set_assistive (st : locals) (func enable : Z) : locals :=
  {| simple := simple st; format := format st; udid := udid st;
     use_network := use_network st; assistive_func := func;
     assistive_enable := enable; domain := domain st; key := key st |}.

(** One answer of [getopt_long]: the option character it returned and the
    bytes at [optarg] (meaningful for options declared with an argument). *)
Definition getopt_answer : Type := (ascii * string)%type.

(** How the body of the [while] leaves: by [return], or by [break] with the
    locals as updated. *)
Inductive flow : Type :=
| Return (status : Z)
| Break (st : locals).

Definition string_of_Z (z : Z) : string := NilZero.string_of_int (Z.to_int z).

Section Main.

Variable pkg : package.
Variable usb : usb_layer.
Variable lib : imobiledevice.
(** [atoi] of the C library. *)
Variable atoi : string -> Z.
(** The bytes at [argv[0]]. *)
Variable argv0 : string.

Definition print_usage (is_error : bool) : trace :=
  let f := if is_error then stderr else stdout in
  let name := strrchr_tail "/"%char argv0 in
  [Fprintf f ("Usage: " ++
              (match name with Some t => c_str t | None => c_str argv0 end) ++
              " [OPTIONS]" ++ nl);
   Fprintf f (nl ++
     "Show information about a connected device." ++ nl ++
     nl ++
     "OPTIONS:" ++ nl ++
     "  -u, --udid UDID    target specific device by UDID" ++ nl ++
     "  -n, --network      connect to network device" ++ nl ++
     "  -s, --simple       use a simple connection to avoid auto-pairing with the device" ++ nl ++
     "  -q, --domain NAME  set domain of query to NAME. Default: None" ++ nl ++
     "  -k, --key NAME     only query key specified by NAME. Default: All keys." ++ nl ++
     "  -x, --xml          output information as xml plist instead of key/value pairs" ++ nl ++
     "  -h, --help         prints usage information" ++ nl ++
     "  -d, --debug        enable communication debugging" ++ nl ++
     "  -v, --version      prints version information" ++ nl ++
     "  -a, --assistive " ++ nl ++
     "  -r, --reset " ++ nl ++
     "  -g, --get " ++ nl ++
     "  -f, --find driver " ++ nl ++
     nl);
   Fprintf f ("Known domains are:" ++ nl ++ nl)]%string
  ++ map (fun d => Fprintf f ("  " ++ d ++ nl)%string) domains
  ++ [Fprintf f (nl ++
        "Homepage:    <" ++ PACKAGE_URL pkg ++ ">" ++ nl ++
        "Bug Reports: <" ++ PACKAGE_BUGREPORT pkg ++ ">" ++ nl)%string].

(** The [switch (c)] of the option loop. *)
Definition option_case (st : locals) (o : getopt_answer) : trace * flow :=
  let '(c, optarg) := o in
  match c with
  | "d"%char => ([IdeviceSetDebugLevel 1], Break st)
  | "u"%char =>
      if is_empty optarg
      then (Fprintf stderr ("ERROR: UDID must not be empty!" ++ nl)
              :: print_usage true, Return 2)
      else ([], Break (set_udid st (Some (c_str optarg))))
  | "n"%char => ([], Break (set_use_network st 1))
  | "q"%char =>
      if is_empty optarg
      then (Fprintf stderr ("ERROR: 'domain' must not be empty!" ++ nl)
              :: print_usage true, Return 2)
      else ([], Break (set_domain st (Some (c_str optarg))))
  | "k"%char =>
      if is_empty optarg
      then (Fprintf stderr ("ERROR: 'key' must not be empty!" ++ nl)
              :: print_usage true, Return 2)
      else ([], Break (set_key st (Some (c_str optarg))))
  | "x"%char => ([], Break (set_format st FORMAT_XML))
  | "s"%char => ([], Break (set_simple st 1))
  | "h"%char => (print_usage false, Return 0)
  | "v"%char =>
      ([printf (TOOL_NAME ++ " " ++ PACKAGE_VERSION pkg ++ nl)], Return 0)
  | "a"%char => ([], Break (set_assistive st 1 1))
  | "r"%char => ([], Break (set_assistive st 1 0))
  | "g"%char => ([], Break (set_assistive st 1 10))
  | "f"%char =>
      if is_empty optarg then ([], Return 0)
      else (find_driver usb (atoi optarg) (udid st), Return 0)
  | _ => (print_usage true, Return 2)
  end.

(** [while ((c = getopt_long (...)) != -1) switch (c) ...], run on the
    answers [getopt_long] gives before it returns -1. *)
Fixpoint getopt_loop (st : locals) (answers : list getopt_answer)
  : trace * flow :=
  match answers with
  | [] => ([], Break st)
  | o :: rest =>
      match option_case st o with
      | (tr, Return status) => (tr, Return status)
      | (tr, Break st') => emit tr (getopt_loop st' rest)
      end
  end.

Definition could_not_connect (f : stream) (ldret : Z) : event :=
  Fprintf f ("ERROR: Could not connect to lockdownd: " ++
             lockdownd_strerror lib ldret ++ " (" ++ string_of_Z ldret ++ ")" ++
             nl).

(** The assistive-touch branch, entered with a device. *)
Definition assistive (st : locals) : trace * Z :=
  let ldret := lockdownd_client_new_with_handshake lib "oa" in
  if negb (ldret =? LOCKDOWN_E_SUCCESS)
  then ([LockdowndClientNewWithHandshake "oa";
         could_not_connect stdout ldret; IdeviceFree], -1)
  else
    (LockdowndClientNewWithHandshake "oa" ::
     (if assistive_enable st =? 10
      then
        let '(ldret, node) :=
          lockdownd_get_value lib (Some "com.apple.Accessibility"%string)
            (Some "AssistiveTouchEnabledByiTunes"%string) in
        LockdowndGetValue (Some "com.apple.Accessibility"%string)
          (Some "AssistiveTouchEnabledByiTunes"%string) ::
        (if ldret =? LOCKDOWN_E_SUCCESS
         then match node with
              | Some n => [printf (plist_print_to_stream lib n); PlistFree n]
              | None => []
              end
         else [])
      else
        let value := negb (assistive_enable st =? 0) in
        let ldret :=
          lockdownd_set_value lib "com.apple.Accessibility"
            "AssistiveTouchEnabledByiTunes" value in
        LockdowndSetValue "com.apple.Accessibility"
          "AssistiveTouchEnabledByiTunes" value ::
        (if ldret =? LOCKDOWN_E_SUCCESS then [printf "1"] else []))
     ++ [LockdowndClientFree; IdeviceFree], 0).

(** The query branch, entered with a device. *)
Definition query (st : locals) : trace * Z :=
  let connect :=
    if negb (simple st =? 0) then LockdowndClientNew TOOL_NAME
    else LockdowndClientNewWithHandshake TOOL_NAME in
  let ldret :=
    if negb (simple st =? 0) then lockdownd_client_new lib TOOL_NAME
    else lockdownd_client_new_with_handshake lib TOOL_NAME in
  if negb (LOCKDOWN_E_SUCCESS =? ldret)
  then ([connect; could_not_connect stderr ldret; IdeviceFree], -1)
  else
    (connect :: LockdowndGetValue (domain st) (key st) ::
     (let '(r, node) := lockdownd_get_value lib (domain st) (key st) in
      if r =? LOCKDOWN_E_SUCCESS
      then match node with
           | Some n =>
               (if format st =? FORMAT_XML then [printf (plist_to_xml lib n)]
                else if format st =? FORMAT_KEY_VALUE
                then [printf (plist_print_to_stream lib n)]
                else match key st with
                     | Some _ => [printf (plist_print_to_stream lib n)]
                     | None => []
                     end)
               ++ [PlistFree n]
           | None => []
           end
      else [])
     ++ [LockdowndClientFree; IdeviceFree], 0).

(** What [main] does once the option loop has ended by [break]. *)
Definition after_options (st : locals) : trace * Z :=
  let lookup_network := negb (use_network st =? 0) in
  let ret := idevice_new_with_options lib (udid st) lookup_network in
  emit [IdeviceNewWithOptions (udid st) lookup_network]
    (if negb (ret =? IDEVICE_E_SUCCESS)
     then
       ([match udid st with
         | Some u => printf ("ERROR: Device " ++ u ++ " not found!" ++ nl)
         | None => printf ("ERROR: No device found!" ++ nl)
         end], -1)
     else if assistive_func st =? 1 then assistive st
     else query st).

(** [main]: the trace and the exit status.  The tool is built against
    libusb-win32, so the [signal (SIGPIPE, SIG_IGN)] under [#ifndef WIN32]
    is not part of it. *)
Definition main (answers : list getopt_answer) : trace * Z :=
  match getopt_loop initial_locals answers with
  | (tr, Return status) => (tr, status)
  | (tr, Break st) => emit tr (after_options st)
  end.

End Main.

(** The identity after one more answer: the argument of [-u] replaces it. *)
Definition next_udid (acc : option string) (o : getopt_answer)
  : option string :=
  if Ascii.eqb (fst o) "u"%char then Some (c_str (snd o)) else acc.

(** The argument of the last [-u] among the answers, if any. *)
Definition last_udid (answers : list getopt_answer) : option string :=
  fold_left next_udid answers None.

(** ** Concrete environments *)

Module Scenario.

Definition iphone (n : Z) : usb_device :=
  {| devnum := n;
     descriptor := {| idVendor := 0x5ac; idProduct := 0x12a8;
                      iSerialNumber := 3 |} |}.

Definition hub : usb_device :=
  {| devnum := 9;
     descriptor := {| idVendor := 0x8087; idProduct := 0x24;
                      iSerialNumber := 0 |} |}.

(** A layer whose answers are keyed by device number: the handle of device
    [n] is [100 + n] when [may_open n], and [read] gives the outcome of the
    string read on each handle. *)
Definition layer (major : Z) (bs : list (list usb_device))
           (may_open : Z -> bool) (read : usb_dev_handle -> Z * string)
  : usb_layer :=
  {| driver_major := major;
     busses := map (fun ds => {| location := 0; devices := ds |}) bs;
     usb_open := fun d =>
       if may_open (devnum d) then Some (100 + devnum d) else None;
     usb_get_string_simple := fun h _ _ => read h |}.

Definition serials (h : usb_dev_handle) : Z * string :=
  if h =? 101 then (6, "ABC123"%string)
  else if h =? 102 then (3, "XYZ"%string)
  else (-5, EmptyString).

(** One phone, serial ABC123. *)
Definition one_phone : usb_layer :=
  layer 1 [[iphone 1]] (fun _ => true) serials.

(** A hub and two phones on two busses; the first phone listed is ABC123. *)
Definition two_phones : usb_layer :=
  layer 1 [[hub; iphone 1]; [iphone 2]] (fun _ => true) serials.

(** The same devices, enumerated in another order. *)
Definition two_phones_reordered : list usb_bus :=
  [{| location := 0; devices := [iphone 2] |};
   {| location := 1; devices := [iphone 1; hub] |}].


(** The string read fails with -5 and writes nothing; the array still holds
    the bytes ABC123. *)
Definition failed_read : usb_layer :=
  layer 1 [[iphone 1]] (fun _ => true) (fun _ => (-5, "ABC123"%string)).

(** The phone reports an empty serial string: the read returns length 0. *)
Definition empty_serial : usb_layer :=
  layer 1 [[iphone 1]] (fun _ => true) (fun _ => (0, EmptyString)).

(** The driver is not installed. *)
Definition no_driver : usb_layer :=
  layer (-1) [] (fun _ => true) serials.

Definition pkg : package :=
  {| PACKAGE_VERSION := "1.3.0";
     PACKAGE_URL := "https://libimobiledevice.org";
     PACKAGE_BUGREPORT := "https://github.com/libimobiledevice/libimobiledevice/issues" |}.

(** No device answers usbmuxd. *)
Definition no_device : imobiledevice :=
  {| idevice_new_with_options := fun _ _ => -3;
     lockdownd_client_new := fun _ => -1;
     lockdownd_client_new_with_handshake := fun _ => -1;
     lockdownd_strerror := fun _ => "Unknown error"%string;
     lockdownd_get_value := fun _ _ => (-1, None);
     lockdownd_set_value := fun _ _ _ => -1;
     plist_print_to_stream := fun _ => EmptyString;
     plist_to_xml := fun _ => EmptyString |}.

(** A decimal [atoi]: leading digits, 0 when there are none. *)
Fixpoint digits (acc : Z) (s : string) : Z :=
  match s with
  | EmptyString => acc
  | String c r =>
      if (48 <=? code c) && (code c <=? 57)
      then digits (10 * acc + (code c - 48)) r
      else acc
  end.

Definition atoi (s : string) : Z := digits 0 s.

Definition run (usb : usb_layer) (answers : list getopt_answer) : trace * Z :=
  main pkg usb no_device atoi "ideviceinfo" answers.

End Scenario.

(** ** The domain table lookup *)

(** [s] holds no byte equal to [ch]. *)
Fixpoint lacks (ch : ascii) (s : string) : bool :=
  match s with
  | EmptyString => true
  | String c r => negb (Ascii.eqb c ch) && lacks ch r
  end.

(** The C string at [hay] begins with the C string at [needle]. *)
Fixpoint starts_with (needle hay : string) : bool :=
  match needle with
  | EmptyString => true
  | String c n' =>
      if is_nul c then true
      else match hay with
           | EmptyString => false
           | String d h' =>
               if is_nul d then false
               else Ascii.eqb c d && starts_with n' h'
           end
  end.

(** [strstr (hay, needle)]: the bytes from the first occurrence of [needle]
    on, [None] for the NULL pointer. *)
Fixpoint strstr (hay needle : string) {struct hay} : option string :=
  if starts_with needle hay then Some hay
  else match hay with
       | EmptyString => None
       | String d h' => if is_nul d then None else strstr h' needle
       end.

(** The [while (domains[i] != NULL)] of [is_domain_known], run on the
    entries from index [i] on. *)
Fixpoint is_domain_known_loop (table : list string) (domain : string) : Z :=
  match table with
  | [] => 0
  | entry :: rest =>
      match strstr domain entry with
      | Some _ => 1
      | None => is_domain_known_loop rest domain
      end
  end.

Definition is_domain_known (domain : string) : Z :=
  is_domain_known_loop domains domain.

(** ** Reading the trace of [main] *)

Definition is_stdout (e : event) : bool :=
  match e with Fprintf stdout _ => true | _ => false end.

Definition is_stderr (e : event) : bool :=
  match e with Fprintf stderr _ => true | _ => false end.

Definition is_value_call (e : event) : bool :=
  match e with
  | LockdowndGetValue _ _ | LockdowndSetValue _ _ _ => true
  | _ => false
  end.

Definition is_get_value (e : event) : bool :=
  match e with LockdowndGetValue _ _ => true | _ => false end.

Definition is_set_value (e : event) : bool :=
  match e with LockdowndSetValue _ _ _ => true | _ => false end.

(** What the program holds of libimobiledevice at a point of a run: a
    device, a lockdown client, a plist node not yet freed. *)
Record session : Type := {
  has_device : bool;
  has_client : bool;
  pending : option plist_t
}.

Definition no_session : session :=
  {| has_device := false; has_client := false; pending := None |}.

(** Resource discipline of a run against the answers of [lib].  A device is
    requested only when none is held; a client is requested only with a
    device and no client; values are read or written only through a client;
    a node is freed only if it is the one received and still held; the
    client is freed only when held and no node is pending; the device is
    freed only when held and the client is gone; and at the end nothing is
    held. *)
Fixpoint session_ok (lib : imobiledevice) (s : session) (tr : trace) : bool :=
  match tr with
  | [] => negb (has_device s) && negb (has_client s)
          && match pending s with None => true | Some _ => false end
  | IdeviceNewWithOptions u n :: tr' =>
      negb (has_device s) &&
      session_ok lib
        {| has_device := idevice_new_with_options lib u n =? IDEVICE_E_SUCCESS;
           has_client := has_client s; pending := pending s |} tr'
  | LockdowndClientNew l :: tr' =>
      has_device s && negb (has_client s) &&
      session_ok lib
        {| has_device := true;
           has_client := lockdownd_client_new lib l =? LOCKDOWN_E_SUCCESS;
           pending := pending s |} tr'
  | LockdowndClientNewWithHandshake l :: tr' =>
      has_device s && negb (has_client s) &&
      session_ok lib
        {| has_device := true;
           has_client :=
             lockdownd_client_new_with_handshake lib l =? LOCKDOWN_E_SUCCESS;
           pending := pending s |} tr'
  | LockdowndGetValue d k :: tr' =>
      has_client s &&
      match pending s with None => true | Some _ => false end &&
      session_ok lib
        {| has_device := has_device s; has_client := true;
           pending :=
             if fst (lockdownd_get_value lib d k) =? LOCKDOWN_E_SUCCESS
             then snd (lockdownd_get_value lib d k) else None |} tr'
  | LockdowndSetValue _ _ _ :: tr' => has_client s && session_ok lib s tr'
  | PlistFree n :: tr' =>
      match pending s with
      | Some n' =>
          (n =? n') &&
          session_ok lib
            {| has_device := has_device s; has_client := has_client s;
               pending := None |} tr'
      | None => false
      end
  | LockdowndClientFree :: tr' =>
      has_client s &&
      match pending s with None => true | Some _ => false end &&
      session_ok lib
        {| has_device := has_device s; has_client := false;
           pending := None |} tr'
  | IdeviceFree :: tr' =>
      has_device s && negb (has_client s) &&
      match pending s with None => true | Some _ => false end &&
      session_ok lib
        {| has_device := false; has_client := false; pending := None |} tr'
  | _ :: tr' => session_ok lib s tr'
  end.

(** Events that do not touch what [session] tracks. *)
Definition is_session_neutral (e : event) : bool :=
  match e with
  | Fprintf _ _ | UsbInit | UsbGetVersion | UsbFindBusses | UsbFindDevices
  | UsbGetBusses | UsbOpen _ _ | UsbGetStringSimple _ _ _ _ | UsbClose _
  | IdeviceSetDebugLevel _ => true
  | _ => false
  end.

(** The argument of the last answer [c] among the answers, if any. *)
Definition last_arg (c : ascii) (answers : list getopt_answer)
  : option string :=
  fold_left
    (fun acc (o : getopt_answer) =>
       if Ascii.eqb (fst o) c then Some (c_str (snd o)) else acc)
    answers None.

(** Some answer is the option [c]. *)
Definition has_option (c : ascii) (answers : list getopt_answer) : bool :=
  existsb (fun o : getopt_answer => Ascii.eqb (fst o) c) answers.

(** [assistive_func] and [assistive_enable] as the last of [-a], [-r] and
    [-g] leaves them. *)
Definition last_assistive (answers : list getopt_answer) : Z * Z :=
  fold_left
    (fun acc (o : getopt_answer) =>
       if Ascii.eqb (fst o) "a"%char then (1, 1)
       else if Ascii.eqb (fst o) "r"%char then (1, 0)
       else if Ascii.eqb (fst o) "g"%char then (1, 10)
       else acc)
    answers (0, 0).

(** The read events of a run ask for at most 100 bytes, at the
    serial-number index of a device that passes the filter. *)
Definition read_in_bounds (usb : usb_layer) (pid : Z) (e : event) : Prop :=
  match e with
  | UsbGetStringSimple _ index buflen _ =>
      buflen = 100 /\
      exists dev, In dev (all_devices usb) /\ candidate pid dev = true /\
                  index = iSerialNumber (descriptor dev)
  | _ => True
  end.

Module Paired.

(** A device answers, the handshake succeeds, and every query gives the
    node 7, which prints as [Value]. *)
Definition lib : imobiledevice :=
  {| idevice_new_with_options := fun _ _ => 0;
     lockdownd_client_new := fun _ => 0;
     lockdownd_client_new_with_handshake := fun _ => 0;
     lockdownd_strerror := fun _ => "Success"%string;
     lockdownd_get_value := fun _ _ => (0, Some 7);
     lockdownd_set_value := fun _ _ _ => 0;
     plist_print_to_stream := fun _ => "Value"%string;
     plist_to_xml := fun _ => "<plist/>"%string |}.

(** A device answers but lockdownd refuses the client. *)
Definition refused : imobiledevice :=
  {| idevice_new_with_options := fun _ _ => 0;
     lockdownd_client_new := fun _ => -5;
     lockdownd_client_new_with_handshake := fun _ => -5;
     lockdownd_strerror := fun _ => "SSL error"%string;
     lockdownd_get_value := fun _ _ => (-1, None);
     lockdownd_set_value := fun _ _ _ => -1;
     plist_print_to_stream := fun _ => EmptyString;
     plist_to_xml := fun _ => EmptyString |}.

Definition run (l : imobiledevice) (answers : list getopt_answer)
  : trace * Z :=
  main Scenario.pkg Scenario.one_phone l Scenario.atoi
       "/usr/bin/ideviceinfo" answers.

End Paired.

(** ** The array [dev_serial] as memory *)

(** [find_driver] again, with the 100 bytes of [dev_serial] followed through
    the run.  The array is not initialised: it starts with the bytes
    [stale] that earlier code left in its place, and it keeps from one turn
    of the loop to the next what the last read put there.  A read that
    returns a negative value has failed and written nothing. *)

Section FindDriverMem.

Variable usb : usb_layer.

(** The return value of [usb_get_string_simple] and the bytes of the array
    once the call is over. *)
Definition read_serial (dev_serial : string) (dev : usb_device)
           (handle : usb_dev_handle) : Z * string :=
  let '(ret, written) :=
    usb_get_string_simple usb handle (iSerialNumber (descriptor dev)) 100 in
  (ret, if ret <? 0 then dev_serial else written).

Definition probe_mem (udid dev_serial : string) (dev : usb_device)
           (handle : usb_dev_handle) : trace * bool * string :=
  let '(ret, dev_serial') := read_serial dev_serial dev handle in
  let result :=
    if negb (ret =? 0)
    then (if strcmp udid dev_serial' =? 0 then true else false)
    else false in
  ([UsbGetStringSimple handle (iSerialNumber (descriptor dev)) 100 ret;
    UsbClose handle], result, dev_serial').

Fixpoint scan_devices_mem (pid : Z) (udid dev_serial : string)
         (devs : list usb_device) : trace * bool * string :=
  match devs with
  | [] => ([], false, dev_serial)
  | dev :: next =>
      if negb (candidate pid dev)
      then scan_devices_mem pid udid dev_serial next
      else
        match usb_open usb dev with
        | Some handle =>
            let '(tr, result, dev_serial') :=
              probe_mem udid dev_serial dev handle in
            if result
            then (UsbOpen dev (Some handle) :: tr ++ [printf "TRUE"], true,
                  dev_serial')
            else
              let '(tr', returned, final) :=
                scan_devices_mem pid udid dev_serial' next in
              ((UsbOpen dev (Some handle) :: tr) ++ tr', returned, final)
        | None =>
            let '(tr', returned, final) :=
              scan_devices_mem pid udid dev_serial next in
            (UsbOpen dev None :: tr', returned, final)
        end
  end.

Fixpoint scan_busses_mem (pid : Z) (udid dev_serial : string)
         (bs : list usb_bus) : trace * bool * string :=
  match bs with
  | [] => ([], false, dev_serial)
  | bus :: next =>
      let '(tr, returned, dev_serial') :=
        scan_devices_mem pid udid dev_serial (devices bus) in
      if returned then (tr, true, dev_serial')
      else
        let '(tr', returned', final) :=
          scan_busses_mem pid udid dev_serial' next in
        (tr ++ tr', returned', final)
  end.

Definition find_driver_mem (pid : Z) (udid : option string) (stale : string)
  : trace :=
  match udid with
  | None => [printf "FALSE"]
  | Some udid =>
      [UsbInit; UsbGetVersion] ++
      (if driver_major usb =? -1 then [printf "FALSE"]
       else
         [UsbFindBusses; UsbFindDevices; UsbGetBusses] ++
         (let '(tr, returned, _) :=
            scan_busses_mem pid udid stale (busses usb) in
          if returned then tr else tr ++ [printf "FALSE"]))
  end.

(** No string read of a listed device that passes the filter fails. *)
Definition reads_succeed (pid : Z) (devs : list usb_device) : Prop :=
  forall d h, In d devs -> candidate pid d = true ->
              usb_open usb d = Some h ->
              0 <= fst (usb_get_string_simple usb h
                          (iSerialNumber (descriptor d)) 100).

(** A read that returns length 0 has written the empty string. *)
Definition zero_read_is_empty (pid : Z) (devs : list usb_device) : Prop :=
  forall d h, In d devs -> candidate pid d = true ->
              usb_open usb d = Some h ->
              fst (usb_get_string_simple usb h
                     (iSerialNumber (descriptor d)) 100) = 0 ->
              c_str (snd (usb_get_string_simple usb h
                            (iSerialNumber (descriptor d)) 100))
              = EmptyString.

End FindDriverMem.

Module Stale.

(** Phone 1 fails its string read with -5; phone 2 reports XYZ. *)
Definition reads (h : usb_dev_handle) : Z * string :=
  if h =? 102 then (3, "XYZ"%string) else (-5, EmptyString).

(** Only the phone whose read fails is attached. *)
Definition one_failing : usb_layer :=
  Scenario.layer 1 [[Scenario.iphone 1]] (fun _ => true) reads.

(** The failing phone is listed first. *)
Definition failing_first : usb_layer :=
  Scenario.layer 1 [[Scenario.iphone 1; Scenario.iphone 2]]
                 (fun _ => true) reads.

(** The same two phones, the failing one listed last. *)
Definition failing_last : list usb_bus :=
  [{| location := 0; devices := [Scenario.iphone 2; Scenario.iphone 1] |}].

End Stale.

(** * Properties *)

(** ** C strings *)

Lemma code_range (c : ascii) : 0 <= code c < 256.
Proof.
  unfold code. pose proof (N_ascii_bounded c). lia.
Qed.

Lemma code_inj (a b : ascii) : code a = code b -> a = b.
Proof.
  unfold code. intros H. apply N2Z.inj in H.
  rewrite <- (ascii_N_embedding a), <- (ascii_N_embedding b). now rewrite H.
Qed.

(** [strcmp] returns 0 exactly when the two C strings have the same bytes. *)
Lemma strcmp_eq0 (s1 s2 : string) : strcmp s1 s2 = 0 <-> c_str s1 = c_str s2.
Proof.
  revert s2. induction s1 as [|c1 r1 IH]; intros [|c2 r2]; simpl.
  - tauto.
  - unfold is_nul. destruct (Z.eqb_spec (code c2) 0); split; intros H;
      try reflexivity; try discriminate; lia.
  - unfold is_nul. destruct (Z.eqb_spec (code c1) 0); split; intros H;
      try reflexivity; try discriminate; lia.
  - unfold is_nul in *.
    destruct (Z.eqb_spec (code c1) (code c2)) as [E|E].
    + rewrite <- E. destruct (Z.eqb_spec (code c1) 0) as [Z0|Z0].
      * tauto.
      * rewrite IH. apply code_inj in E. subst c2. split; intros H.
        -- now rewrite H.
        -- now inversion H.
    + destruct (Z.eqb_spec (code c1) 0) as [Z1|Z1];
        destruct (Z.eqb_spec (code c2) 0) as [Z2|Z2]; split; intros H;
          try lia; try discriminate.
      inversion H. subst. contradiction.
Qed.

Lemma strcmp_refl (s : string) : strcmp s s = 0.
Proof. now apply strcmp_eq0. Qed.

(** ** Traces *)

Lemma emit_nil {A : Type} (r : trace * A) : emit [] r = r.
Proof. now destruct r. Qed.

Lemma emit_emit {A : Type} (t1 t2 : trace) (r : trace * A) :
  emit t1 (emit t2 r) = emit (t1 ++ t2) r.
Proof. unfold emit. simpl. now rewrite app_assoc. Qed.

Lemma fst_emit {A : Type} (t : trace) (r : trace * A) :
  fst (emit t r) = t ++ fst r.
Proof. reflexivity. Qed.

Lemma snd_emit {A : Type} (t : trace) (r : trace * A) :
  snd (emit t r) = snd r.
Proof. reflexivity. Qed.

Lemma string_app_assoc (a b c : string) :
  ((a ++ b) ++ c = a ++ (b ++ c))%string.
Proof. induction a as [|x a IH]; simpl; [reflexivity | now rewrite IH]. Qed.

Lemma stdout_of_app (t1 t2 : trace) :
  stdout_of (t1 ++ t2) = (stdout_of t1 ++ stdout_of t2)%string.
Proof.
  induction t1 as [|e t1 IH]; simpl; [reflexivity|].
  destruct e as [[|] text| | | | | | | | | | | | | | | | |]; simpl; auto.
  now rewrite IH, string_app_assoc.
Qed.

Lemma open_attempts_app (t1 t2 : trace) :
  open_attempts (t1 ++ t2) = open_attempts t1 ++ open_attempts t2.
Proof.
  induction t1 as [|e t1 IH]; simpl; [reflexivity|].
  destruct e; simpl; auto. now rewrite IH.
Qed.

Lemma count_opened_app (t1 t2 : trace) :
  count_opened (t1 ++ t2) = (count_opened t1 + count_opened t2)%nat.
Proof.
  induction t1 as [|e t1 IH]; simpl; [reflexivity|].
  destruct e as [| | | | | |dev [h|]| | | | | | | | | | |]; simpl; auto.
Qed.

Lemma count_closed_app (t1 t2 : trace) :
  count_closed (t1 ++ t2) = (count_closed t1 + count_closed t2)%nat.
Proof.
  induction t1 as [|e t1 IH]; simpl; [reflexivity|].
  destruct e; simpl; auto.
Qed.

Lemma existsb_app_false {A : Type} (f : A -> bool) (t1 t2 : list A) :
  existsb f t1 = false -> existsb f t2 = false -> existsb f (t1 ++ t2) = false.
Proof. intros H1 H2. now rewrite existsb_app, H1, H2. Qed.

(** ** The scan *)

Lemma candidate_spec (pid : Z) (dev : usb_device) :
  candidate pid dev = true <->
  idVendor (descriptor dev) = VID_APPLE /\ idProduct (descriptor dev) = pid.
Proof.
  unfold candidate.
  destruct (Z.eqb_spec (idVendor (descriptor dev)) VID_APPLE);
    destruct (Z.eqb_spec (idProduct (descriptor dev)) pid); simpl;
      split; intros H; try discriminate; tauto.
Qed.

Section ScanFacts.

Variable usb : usb_layer.
Variable pid : Z.
Variable u : string.

Local Abbreviation read dev h :=
  (usb_get_string_simple usb h (iSerialNumber (descriptor dev)) 100).


Lemma fst_probe (dev : usb_device) (h : usb_dev_handle) :
  fst (probe usb u dev h) =
  [UsbGetStringSimple h (iSerialNumber (descriptor dev)) 100
     (fst (read dev h)); UsbClose h].
Proof. unfold probe. now destruct usb_get_string_simple. Qed.

Lemma snd_probe (dev : usb_device) (h : usb_dev_handle) :
  snd (probe usb u dev h) =
  negb (fst (read dev h) =? 0) && (strcmp u (snd (read dev h)) =? 0).
Proof.
  unfold probe. destruct usb_get_string_simple as [ret buf]. simpl.
  destruct (ret =? 0); simpl; [reflexivity|]. now destruct (strcmp u buf =? 0).
Qed.

(** The test the loop applies, spelled out. *)
Lemma accepts_spec (dev : usb_device) :
  accepts usb pid u dev = true <->
  idVendor (descriptor dev) = VID_APPLE /\
  idProduct (descriptor dev) = pid /\
  exists h, usb_open usb dev = Some h /\
            fst (read dev h) <> 0 /\
            c_str (snd (read dev h)) = c_str u.
Proof.
  unfold accepts. rewrite andb_true_iff, candidate_spec.
  destruct (usb_open usb dev) as [h|].
  - rewrite snd_probe, andb_true_iff, negb_true_iff.
    rewrite Z.eqb_neq, Z.eqb_eq, strcmp_eq0. split.
    + intros [[Hv Hp] [Hr Hs]]. repeat split; auto. exists h. auto.
    + intros (Hv & Hp & h' & Hh & Hr & Hs). inversion Hh; subst h'. auto.
  - split; [intros [_ H]; discriminate | intros (_ & _ & h & H & _); discriminate].
Qed.

(** One turn of the inner loop. *)
Lemma scan_devices_cons (dev : usb_device) (next : list usb_device) :
  scan_devices usb pid u (dev :: next) =
  if accepts usb pid u dev
  then match usb_open usb dev with
       | Some h => (UsbOpen dev (Some h) :: fst (probe usb u dev h)
                      ++ [printf "TRUE"], true)
       | None => ([], false)
       end
  else if candidate pid dev
  then emit (UsbOpen dev (usb_open usb dev) ::
               match usb_open usb dev with
               | Some h => fst (probe usb u dev h)
               | None => []
               end)
            (scan_devices usb pid u next)
  else scan_devices usb pid u next.
Proof.
  simpl. unfold accepts. destruct (candidate pid dev); simpl; [|reflexivity].
  destruct (usb_open usb dev) as [h|]; [|reflexivity].
  now destruct (probe usb u dev h) as [tr [|]].
Qed.

Lemma scan_devices_app (l1 l2 : list usb_device) :
  scan_devices usb pid u (l1 ++ l2) =
  if snd (scan_devices usb pid u l1) then scan_devices usb pid u l1
  else emit (fst (scan_devices usb pid u l1)) (scan_devices usb pid u l2).
Proof.
  induction l1 as [|dev l1 IH].
  - simpl. now rewrite emit_nil.
  - rewrite <- app_comm_cons, !scan_devices_cons.
    destruct (accepts usb pid u dev) eqn:Ha.
    + unfold accepts in Ha. destruct (usb_open usb dev); [reflexivity|].
      now rewrite andb_false_r in Ha.
    + destruct (candidate pid dev); rewrite IH; [|reflexivity].
      rewrite snd_emit. destruct (snd (scan_devices usb pid u l1)); [reflexivity|].
      now rewrite emit_emit, fst_emit.
Qed.

(** The two nested loops visit the devices of all busses in sequence. *)
Lemma scan_busses_flat (bs : list usb_bus) :
  scan_busses usb pid u bs =
  scan_devices usb pid u (List.concat (map devices bs)).
Proof.
  induction bs as [|bus bs IH]; [reflexivity|].
  simpl. rewrite scan_devices_app.
  destruct (scan_devices usb pid u (devices bus)) as [tr [|]]; simpl;
    [reflexivity | now rewrite IH].
Qed.

(** The scan returns early exactly when some device passes the test. *)
Lemma scan_devices_returned (l : list usb_device) :
  snd (scan_devices usb pid u l) = existsb (accepts usb pid u) l.
Proof.
  induction l as [|dev l IH]; [reflexivity|].
  rewrite scan_devices_cons. simpl.
  destruct (accepts usb pid u dev) eqn:Ha; simpl.
  - unfold accepts in Ha. destruct (usb_open usb dev); [reflexivity|].
    now rewrite andb_false_r in Ha.
  - destruct (candidate pid dev); [now rewrite snd_emit | assumption].
Qed.

Lemma stdout_of_probe (dev : usb_device) (h : usb_dev_handle) :
  stdout_of (fst (probe usb u dev h)) = EmptyString.
Proof. now rewrite fst_probe. Qed.

Lemma scan_devices_stdout (l : list usb_device) :
  stdout_of (fst (scan_devices usb pid u l)) =
  if existsb (accepts usb pid u) l then "TRUE"%string else EmptyString.
Proof.
  induction l as [|dev l IH]; [reflexivity|].
  rewrite scan_devices_cons. simpl existsb.
  destruct (accepts usb pid u dev) eqn:Ha; simpl orb.
  - unfold accepts in Ha. destruct (usb_open usb dev) as [h|].
    + simpl fst. simpl stdout_of. now rewrite stdout_of_app, stdout_of_probe.
    + now rewrite andb_false_r in Ha.
  - destruct (candidate pid dev); [|assumption].
    rewrite fst_emit. simpl. rewrite stdout_of_app, IH.
    destruct (usb_open usb dev); [now rewrite stdout_of_probe | reflexivity].
Qed.

(** What [find_driver] prints when given a string and a working driver. *)
Lemma find_driver_stdout :
  driver_major usb <> -1 ->
  stdout_of (find_driver usb pid (Some u)) =
  if existsb (accepts usb pid u) (all_devices usb)
  then "TRUE"%string else "FALSE"%string.
Proof.
  intros Hd. unfold find_driver, all_devices.
  apply Z.eqb_neq in Hd. rewrite Hd, scan_busses_flat.
  pose proof (scan_devices_returned (List.concat (map devices (busses usb)))) as Hr.
  pose proof (scan_devices_stdout (List.concat (map devices (busses usb)))) as Hs.
  destruct (scan_devices usb pid u _) as [tr returned]. simpl in *.
  subst returned. destruct (existsb _ _); simpl; [assumption|].
  now rewrite stdout_of_app, Hs.
Qed.

End ScanFacts.

Section ScanTraces.

Variable usb : usb_layer.
Variable pid : Z.
Variable u : string.

Lemma accepts_opens (dev : usb_device) :
  accepts usb pid u dev = true ->
  exists h, usb_open usb dev = Some h /\ candidate pid dev = true.
Proof.
  unfold accepts. intros H. apply andb_true_iff in H as [Hc Hp].
  destruct (usb_open usb dev) as [h|]; [eauto | discriminate].
Qed.

(** While no device passes the test, every device that passes the filter is
    tried, in order. *)
Lemma scan_devices_no_match_opens (l : list usb_device) :
  existsb (accepts usb pid u) l = false ->
  open_attempts (fst (scan_devices usb pid u l)) = filter (candidate pid) l.
Proof.
  induction l as [|dev l IH]; [reflexivity|].
  simpl existsb. intros H. apply orb_false_iff in H as [Ha Hl].
  rewrite scan_devices_cons, Ha. simpl filter.
  destruct (candidate pid dev); [|auto].
  rewrite fst_emit. simpl. rewrite open_attempts_app, IH by assumption.
  destruct (usb_open usb dev); [now rewrite fst_probe | reflexivity].
Qed.

(** The scan of a list whose first match is [d] does not depend on what
    follows [d]. *)
Lemma scan_devices_stops (l1 l2 : list usb_device) (d : usb_device) :
  accepts usb pid u d = true ->
  scan_devices usb pid u (l1 ++ d :: l2) = scan_devices usb pid u (l1 ++ [d]).
Proof.
  intros Ha. rewrite !scan_devices_app.
  destruct (snd (scan_devices usb pid u l1)); [reflexivity|].
  now rewrite !scan_devices_cons, Ha.
Qed.

Lemma scan_devices_first_match (l1 : list usb_device) (d : usb_device) :
  existsb (accepts usb pid u) l1 = false ->
  accepts usb pid u d = true ->
  open_attempts (fst (scan_devices usb pid u (l1 ++ [d]))) =
  filter (candidate pid) l1 ++ [d].
Proof.
  intros H1 Ha. rewrite scan_devices_app, scan_devices_returned, H1, fst_emit.
  rewrite open_attempts_app, scan_devices_no_match_opens by assumption.
  f_equal. rewrite scan_devices_cons, Ha.
  destruct (accepts_opens d Ha) as (h & -> & _). simpl.
  now rewrite open_attempts_app, fst_probe.
Qed.

(** Handles: each successful open is followed by the read and the close on
    that handle before anything else happens. *)
Lemma scan_devices_handles (l : list usb_device) :
  handles_ok None (fst (scan_devices usb pid u l)) = true /\
  count_opened (fst (scan_devices usb pid u l)) =
  count_closed (fst (scan_devices usb pid u l)).
Proof.
  induction l as [|dev l [IHh IHc]]; [split; reflexivity|].
  rewrite scan_devices_cons.
  destruct (accepts usb pid u dev) eqn:Ha.
  - destruct (accepts_opens dev Ha) as (h & -> & _).
    simpl fst. rewrite fst_probe. simpl. now rewrite Z.eqb_refl.
  - destruct (candidate pid dev); [|now split].
    rewrite fst_emit. destruct (usb_open usb dev) as [h|].
    + rewrite fst_probe. simpl. rewrite Z.eqb_refl. simpl. now rewrite IHc.
    + simpl. now split.
Qed.

Lemma scan_devices_no_connection (l : list usb_device) :
  existsb is_connection_call (fst (scan_devices usb pid u l)) = false.
Proof.
  induction l as [|dev l IH]; [reflexivity|].
  rewrite scan_devices_cons.
  destruct (accepts usb pid u dev) eqn:Ha.
  - destruct (accepts_opens dev Ha) as (h & -> & _).
    simpl fst. now rewrite fst_probe.
  - destruct (candidate pid dev); [|assumption].
    rewrite fst_emit. destruct (usb_open usb dev) as [h|].
    + rewrite fst_probe. simpl. assumption.
    + simpl. assumption.
Qed.

End ScanTraces.

Lemma existsb_Permutation {A : Type} (f : A -> bool) (l l' : list A) :
  Permutation l l' -> existsb f l = existsb f l'.
Proof.
  induction 1 as [|x l l' _ IH|x y l|l l' l'' _ IH1 _ IH2]; simpl.
  - reflexivity.
  - now rewrite IH.
  - destruct (f x), (f y); reflexivity.
  - now rewrite IH1.
Qed.

(** [find_driver] prints one of the two literals, whatever it is given. *)
Lemma find_driver_sentinel (usb : usb_layer) (pid : Z) (udid : option string) :
  stdout_of (find_driver usb pid udid) = "TRUE"%string \/
  stdout_of (find_driver usb pid udid) = "FALSE"%string.
Proof.
  destruct udid as [u|]; [|now right].
  destruct (Z.eq_dec (driver_major usb) (-1)) as [E|E].
  - right. unfold find_driver. now rewrite E.
  - rewrite find_driver_stdout by assumption.
    destruct (existsb _ _); [now left | now right].
Qed.

Lemma find_driver_no_connection (usb : usb_layer) (pid : Z)
      (udid : option string) :
  existsb is_connection_call (find_driver usb pid udid) = false.
Proof.
  destruct udid as [u|]; [|reflexivity].
  unfold find_driver. destruct (driver_major usb =? -1); [reflexivity|].
  rewrite scan_busses_flat.
  pose proof (scan_devices_no_connection usb pid u
                (List.concat (map devices (busses usb)))) as H.
  destruct (scan_devices usb pid u _) as [tr [|]]; simpl in *; [assumption|].
  now rewrite existsb_app, H.
Qed.

(** A read that returns 0 leaves [result] FALSE whatever the buffer holds. *)
Lemma probe_zero (usb : usb_layer) (u : string) (dev : usb_device)
      (h : usb_dev_handle) :
  fst (usb_get_string_simple usb h (iSerialNumber (descriptor dev)) 100) = 0 ->
  snd (probe usb u dev h) = false.
Proof. intros H. now rewrite snd_probe, H. Qed.

(** Any other return value, negative ones included, hands the decision to
    the comparison of the identity with the bytes in the array. *)
Lemma probe_nonzero (usb : usb_layer) (u : string) (dev : usb_device)
      (h : usb_dev_handle) :
  fst (usb_get_string_simple usb h (iSerialNumber (descriptor dev)) 100) <> 0 ->
  snd (probe usb u dev h) =
  (strcmp u (snd (usb_get_string_simple usb h
                    (iSerialNumber (descriptor dev)) 100)) =? 0).
Proof.
  intros H. rewrite snd_probe. apply Z.eqb_neq in H. now rewrite H.
Qed.

(** A product id outside the 16-bit range is matched by no descriptor. *)
Lemma candidate_out_of_range (pid : Z) (dev : usb_device) :
  wf_descriptor (descriptor dev) -> ~ (0 <= pid < 65536) ->
  candidate pid dev = false.
Proof.
  intros (_ & Hp & _) Hr. destruct (candidate pid dev) eqn:E; [|reflexivity].
  apply candidate_spec in E as [_ E]. lia.
Qed.

(** The comparison is exact and case-sensitive. *)
Example find_driver_exact :
  stdout_of (find_driver Scenario.one_phone 0x12a8 (Some "ABC123"%string))
  = "TRUE"%string.
Proof. reflexivity. Qed.

Example find_driver_case_sensitive :
  stdout_of (find_driver Scenario.one_phone 0x12a8 (Some "abc123"%string))
  = "FALSE"%string.
Proof. reflexivity. Qed.

Example find_driver_other_product :
  stdout_of (find_driver Scenario.one_phone 0x12ab (Some "ABC123"%string))
  = "FALSE"%string.
Proof. reflexivity. Qed.

Lemma handles_ok_app (cur : option usb_dev_handle) (t1 t2 : trace) :
  handles_ok cur t1 = true ->
  handles_ok cur (t1 ++ t2) = handles_ok None t2.
Proof.
  revert cur. induction t1 as [|e t1 IH]; intros cur H.
  - destruct cur; [discriminate | reflexivity].
  - destruct e as [f text| | | | | |dev [h|]|h i b r|h| | | | | | | | |];
      destruct cur as [h'|]; simpl in *; try discriminate; auto;
        apply andb_true_iff in H as [-> H]; simpl; auto.
Qed.

(** ** The resolver *)

(** C2 (as amended).  With a NULL identity [find_driver] prints FALSE and
    does nothing else: no USB call of any kind.  An empty identity that is
    not NULL is not short-circuited: the USB layer is initialised first. *)
Theorem find_driver_null_identity (usb : usb_layer) (pid : Z) :
  find_driver usb pid None = [printf "FALSE"] /\
  existsb is_usb_call (find_driver usb pid None) = false /\
  exists tr, find_driver usb pid (Some EmptyString)
             = UsbInit :: UsbGetVersion :: tr.
Proof.
  repeat split. eexists. reflexivity.
Qed.

(** C2 (as stated) fails for the empty identity: the layer is initialised,
    the busses are enumerated, and the phone is opened and read. *)
Lemma find_driver_empty_identity_counterexample :
  existsb is_usb_call
    (find_driver Scenario.one_phone 0x12a8 (Some EmptyString)) = true /\
  open_attempts (find_driver Scenario.one_phone 0x12a8 (Some EmptyString))
    = [Scenario.iphone 1].
Proof. split; reflexivity. Qed.

(** C3: at a failing read.  The read returns -5 and the array holds bytes
    equal to the identity; the test [if (ret)] passes, the buffer is
    compared, and TRUE is printed. *)
Theorem find_driver_negative_read_compared :
  fst (usb_get_string_simple Scenario.failed_read 101 3 100) = -5 /\
  snd (probe Scenario.failed_read "ABC123" (Scenario.iphone 1) 101) = true /\
  find_driver Scenario.failed_read 0x12a8 (Some "ABC123"%string) =
  [UsbInit; UsbGetVersion; UsbFindBusses; UsbFindDevices; UsbGetBusses;
   UsbOpen (Scenario.iphone 1) (Some 101);
   UsbGetStringSimple 101 3 100 (-5); UsbClose 101; printf "TRUE"].
Proof. repeat split. Qed.

(** C4.  When the driver is reported missing ([driver.major] is -1),
    [find_driver] prints FALSE for every product id and identity, without
    enumerating or opening anything, and returns normally. *)
Theorem find_driver_no_driver (usb : usb_layer) (pid : Z)
        (udid : option string) :
  driver_major usb = -1 ->
  stdout_of (find_driver usb pid udid) = "FALSE"%string /\
  open_attempts (find_driver usb pid udid) = [] /\
  find_driver usb pid udid =
  match udid with
  | None => [printf "FALSE"]
  | Some _ => [UsbInit; UsbGetVersion; printf "FALSE"]
  end.
Proof.
  intros H. unfold find_driver. rewrite H. destruct udid; repeat split.
Qed.

Lemma find_driver_no_driver_witness :
  stdout_of (find_driver Scenario.no_driver 0x12a8 (Some "ABC123"%string))
    = "FALSE"%string /\
  open_attempts (find_driver Scenario.no_driver 0x12a8 (Some "ABC123"%string))
    = [] /\
  find_driver Scenario.no_driver 0x12a8 (Some "ABC123"%string) =
  [UsbInit; UsbGetVersion; printf "FALSE"].
Proof.
  apply (find_driver_no_driver Scenario.no_driver 0x12a8 (Some "ABC123"%string)).
  reflexivity.
Defined.

(** C5.  When [d] is the first enumerated device that passes the test, TRUE
    is printed, the devices on which [usb_open] is called are the filtered
    devices listed before [d] followed by [d] itself, so nothing listed
    after [d] is opened, and the whole run is the run that would take place
    if the devices after [d] were not attached. *)
Theorem find_driver_short_circuit (usb : usb_layer) (pid : Z) (u : string)
        (l1 l2 : list usb_device) (d : usb_device) :
  driver_major usb <> -1 ->
  all_devices usb = l1 ++ d :: l2 ->
  existsb (accepts usb pid u) l1 = false ->
  accepts usb pid u d = true ->
  stdout_of (find_driver usb pid (Some u)) = "TRUE"%string /\
  open_attempts (find_driver usb pid (Some u))
    = filter (candidate pid) l1 ++ [d] /\
  find_driver usb pid (Some u) =
  find_driver
    (with_busses usb [{| location := 0; devices := l1 ++ [d] |}])
    pid (Some u).
Proof.
  intros Hd Hall H1 Ha.
  assert (Hscan : scan_busses usb pid u (busses usb)
                  = scan_devices usb pid u (l1 ++ [d])).
  { rewrite scan_busses_flat. fold (all_devices usb). rewrite Hall.
    now apply scan_devices_stops. }
  assert (Hret : snd (scan_devices usb pid u (l1 ++ [d])) = true).
  { rewrite scan_devices_returned, existsb_app. simpl. now rewrite Ha, H1. }
  split; [|split].
  - rewrite find_driver_stdout, Hall, existsb_app by assumption.
    simpl. now rewrite Ha, H1.
  - unfold find_driver. apply Z.eqb_neq in Hd. rewrite Hd, Hscan.
    pose proof (scan_devices_first_match usb pid u l1 d H1 Ha) as Ho.
    destruct (scan_devices usb pid u (l1 ++ [d])) as [tr returned].
    simpl in Hret, Ho. subst returned. exact Ho.
  - unfold find_driver. simpl driver_major. simpl busses.
    rewrite Hscan, scan_busses_flat. simpl. now rewrite app_nil_r.
Qed.

Lemma find_driver_short_circuit_witness :
  stdout_of (find_driver Scenario.two_phones 0x12a8 (Some "ABC123"%string))
    = "TRUE"%string /\
  open_attempts (find_driver Scenario.two_phones 0x12a8 (Some "ABC123"%string))
    = filter (candidate 0x12a8) [Scenario.hub] ++ [Scenario.iphone 1] /\
  find_driver Scenario.two_phones 0x12a8 (Some "ABC123"%string) =
  find_driver
    (with_busses Scenario.two_phones
       [{| location := 0;
           devices := [Scenario.hub] ++ [Scenario.iphone 1] |}])
    0x12a8 (Some "ABC123"%string).
Proof.
  apply (find_driver_short_circuit Scenario.two_phones 0x12a8 "ABC123"
           [Scenario.hub] [Scenario.iphone 2] (Scenario.iphone 1)).
  - simpl. discriminate.
  - reflexivity.
  - reflexivity.
  - reflexivity.
Defined.



(** C7.  In every run of [find_driver] the handles are used in strict
    open, read, close order: at most one handle is open at a time, it is
    closed before the next [usb_open] and before anything is printed, none
    is open when the function returns, and there are as many closes as
    successful opens. This covers the device on which the scan stops. *)
Theorem find_driver_closes_every_handle (usb : usb_layer) (pid : Z)
        (udid : option string) :
  handles_ok None (find_driver usb pid udid) = true /\
  count_opened (find_driver usb pid udid)
  = count_closed (find_driver usb pid udid).
Proof.
  destruct udid as [u|]; [|split; reflexivity].
  unfold find_driver. destruct (driver_major usb =? -1); [split; reflexivity|].
  rewrite scan_busses_flat.
  destruct (scan_devices_handles usb pid u
              (List.concat (map devices (busses usb)))) as [Hh Hc].
  destruct (scan_devices usb pid u _) as [tr [|]]; simpl in *.
  - now split.
  - rewrite (handles_ok_app None tr _ Hh), count_opened_app, count_closed_app.
    simpl. now rewrite Hc.
Qed.

(** ** The option loop *)

Section MainFacts.

Variable pkg : package.
Variable usb : usb_layer.
Variable lib : imobiledevice.
Variable atoi : string -> Z.
Variable argv0 : string.

Local Abbreviation case := (option_case pkg usb atoi argv0).
Local Abbreviation loop := (getopt_loop pkg usb atoi argv0).

(** An option that lets the loop go on has emitted at most the call that
    sets the debug level, and has changed the identity only if it is [-u]. *)
Lemma option_case_break (st st' : locals) (o : getopt_answer) (tr : trace) :
  case st o = (tr, Break st') ->
  Forall (fun e => e = IdeviceSetDebugLevel 1) tr /\
  udid st' = next_udid (udid st) o.
Proof.
  unfold option_case, next_udid. destruct o as [c optarg].
  destruct c as [[] [] [] [] [] [] [] []]; simpl;
    try destruct (is_empty optarg);
    intros H; inversion H; subst; simpl; auto.
Qed.

Lemma getopt_loop_app (st : locals) (pre post : list getopt_answer) :
  loop st (pre ++ post) =
  match loop st pre with
  | (tr, Return status) => (tr, Return status)
  | (tr, Break st') => emit tr (loop st' post)
  end.
Proof.
  revert st. induction pre as [|o pre IH]; intros st; simpl.
  - now rewrite emit_nil.
  - destruct (case st o) as [tr [status|st']]; [reflexivity|].
    rewrite IH.
    destruct (loop st' pre) as [tr' [status|st'']]; [reflexivity|].
    now rewrite emit_emit.
Qed.

Lemma getopt_loop_break (answers : list getopt_answer) (st st' : locals)
      (tr : trace) :
  loop st answers = (tr, Break st') ->
  Forall (fun e => e = IdeviceSetDebugLevel 1) tr /\
  udid st' = fold_left next_udid answers (udid st).
Proof.
  revert st tr. induction answers as [|o rest IH]; intros st tr; simpl.
  - intros H. inversion H. subst. auto.
  - destruct (case st o) as [tr1 [status|st1]] eqn:E1;
      [discriminate|].
    destruct (loop st1 rest) as [tr2 [status|st2]] eqn:E2;
      [discriminate|].
    intros H. inversion H. subst.
    destruct (option_case_break _ _ _ _ E1) as [F1 U1].
    destruct (IH _ _ E2) as [F2 U2]. split.
    + apply Forall_app. auto.
    + now rewrite U2, U1.
Qed.

Lemma debug_only_stdout (tr : trace) :
  Forall (fun e => e = IdeviceSetDebugLevel 1) tr ->
  stdout_of tr = EmptyString.
Proof. induction 1 as [|e tr -> _ IH]; simpl; auto. Qed.

Lemma debug_only_no_connection (tr : trace) :
  Forall (fun e => e = IdeviceSetDebugLevel 1) tr ->
  existsb is_connection_call tr = false.
Proof. induction 1 as [|e tr -> _ IH]; simpl; auto. Qed.

(** What [main] does when the loop gets to an answer [-f]. *)
Lemma main_find (pre post : list getopt_answer) (arg : string)
      (tr : trace) (st : locals) :
  loop initial_locals pre = (tr, Break st) ->
  main pkg usb lib atoi argv0 (pre ++ ("f"%char, arg) :: post) =
  (tr ++ (if is_empty arg then []
          else find_driver usb (atoi arg) (udid st)), 0).
Proof.
  intros H. unfold main. rewrite getopt_loop_app, H.
  simpl. destruct (is_empty arg); reflexivity.
Qed.

End MainFacts.

(** C9 (as amended).  When the option loop gets to [-f], the exit status
    is 0.  If the argument of [-f] is not empty, standard output holds
    exactly what [find_driver] printed, which is TRUE or FALSE; if it is
    empty, nothing at all is printed. *)
Theorem main_find_prints_sentinel (pkg : package) (usb : usb_layer)
        (lib : imobiledevice) (atoi : string -> Z) (argv0 : string)
        (pre post : list getopt_answer) (arg : string)
        (tr : trace) (st : locals) :
  getopt_loop pkg usb atoi argv0 initial_locals pre = (tr, Break st) ->
  let r := main pkg usb lib atoi argv0 (pre ++ ("f"%char, arg) :: post) in
  snd r = 0 /\
  (is_empty arg = false ->
   stdout_of (fst r) = stdout_of (find_driver usb (atoi arg) (udid st)) /\
   (stdout_of (fst r) = "TRUE"%string \/ stdout_of (fst r) = "FALSE"%string)) /\
  (is_empty arg = true -> stdout_of (fst r) = EmptyString).
Proof.
  intros H r. subst r. rewrite (main_find _ _ _ _ _ _ _ _ _ _ H). simpl.
  destruct (getopt_loop_break _ _ _ _ _ _ _ _ H) as [Hq _].
  apply debug_only_stdout in Hq.
  split; [reflexivity|]. split; intros E; rewrite E, stdout_of_app, Hq.
  - split; [reflexivity | apply find_driver_sentinel].
  - reflexivity.
Qed.

Lemma main_find_prints_sentinel_witness :
  let r := Scenario.run Scenario.one_phone
             [("d"%char, EmptyString); ("u"%char, "ABC123"%string);
              ("f"%char, "4776"%string); ("x"%char, EmptyString)] in
  snd r = 0 /\
  (is_empty "4776" = false ->
   stdout_of (fst r)
   = stdout_of (find_driver Scenario.one_phone (Scenario.atoi "4776")
                  (Some "ABC123"%string)) /\
   (stdout_of (fst r) = "TRUE"%string \/ stdout_of (fst r) = "FALSE"%string)) /\
  (is_empty "4776" = true -> stdout_of (fst r) = EmptyString).
Proof.
  apply (main_find_prints_sentinel Scenario.pkg Scenario.one_phone
           Scenario.no_device Scenario.atoi "ideviceinfo"
           [("d"%char, EmptyString); ("u"%char, "ABC123"%string)]
           [("x"%char, EmptyString)] "4776"
           [IdeviceSetDebugLevel 1]
           (set_udid initial_locals (Some "ABC123"%string))).
  reflexivity.
Defined.

(** C9 (as stated) fails when the argument of [-f] is the empty string:
    the program exits with status 0 and prints neither literal. *)
Lemma main_find_prints_sentinel_counterexample :
  let r := Scenario.run Scenario.one_phone [("f"%char, EmptyString)] in
  snd r = 0 /\
  stdout_of (fst r) <> "TRUE"%string /\
  stdout_of (fst r) <> "FALSE"%string.
Proof. repeat split; discriminate. Qed.

(** C10 (as amended).  When the option loop gets to [-f]: the identity in
    force is the argument of the last [-u] answered before it, NULL when
    there is none; [main] returns 0 there, having run [find_driver] on that
    identity if the argument of [-f] is not empty and nothing if it is, so
    the answers after [-f] have no effect; no device connection or lockdown
    call is made; and with no earlier [-u] and a non-empty argument, FALSE
    is printed. *)
Theorem main_find_order_dependent (pkg : package) (usb : usb_layer)
        (lib : imobiledevice) (atoi : string -> Z) (argv0 : string)
        (pre post : list getopt_answer) (arg : string)
        (tr : trace) (st : locals) :
  getopt_loop pkg usb atoi argv0 initial_locals pre = (tr, Break st) ->
  let r := main pkg usb lib atoi argv0 (pre ++ ("f"%char, arg) :: post) in
  udid st = last_udid pre /\
  r = (tr ++ (if is_empty arg then []
              else find_driver usb (atoi arg) (last_udid pre)), 0) /\
  existsb is_connection_call (fst r) = false /\
  (last_udid pre = None -> is_empty arg = false ->
   stdout_of (fst r) = "FALSE"%string).
Proof.
  intros H r. subst r. rewrite (main_find _ _ _ _ _ _ _ _ _ _ H).
  destruct (getopt_loop_break _ _ _ _ _ _ _ _ H) as [Hq Hu].
  change (udid st = last_udid pre) in Hu. rewrite Hu.
  split; [reflexivity|]. split; [reflexivity|]. simpl fst. split.
  - apply existsb_app_false; [now apply debug_only_no_connection|].
    destruct (is_empty arg); [reflexivity | apply find_driver_no_connection].
  - intros Hn He. rewrite He, Hn, stdout_of_app.
    now rewrite (debug_only_stdout _ Hq).
Qed.

Lemma main_find_order_dependent_witness :
  let pre := [("u"%char, "XYZ"%string); ("n"%char, EmptyString);
              ("u"%char, "ABC123"%string)] in
  let r := Scenario.run Scenario.one_phone
             (pre ++ ("f"%char, "4776"%string)
                  :: [("u"%char, "QRS"%string); ("h"%char, EmptyString)]) in
  udid (set_udid (set_use_network (set_udid initial_locals
                                     (Some "XYZ"%string)) 1)
          (Some "ABC123"%string)) = last_udid pre /\
  r = ([] ++ (if is_empty "4776" then []
              else find_driver Scenario.one_phone (Scenario.atoi "4776")
                     (last_udid pre)), 0) /\
  existsb is_connection_call (fst r) = false /\
  (last_udid pre = None -> is_empty "4776" = false ->
   stdout_of (fst r) = "FALSE"%string).
Proof.
  apply (main_find_order_dependent Scenario.pkg Scenario.one_phone
           Scenario.no_device Scenario.atoi "ideviceinfo").
  reflexivity.
Defined.

(** C10 (as stated) fails when the argument of [-f] is the empty string:
    no [-u] comes before [-f], yet FALSE is not printed, since
    [find_driver] is not called at all. *)
Lemma main_find_order_dependent_counterexample :
  last_udid [] = None /\
  Scenario.run Scenario.one_phone
    [("f"%char, EmptyString); ("u"%char, "ABC123"%string)] = ([], 0) /\
  stdout_of
    (fst (Scenario.run Scenario.one_phone
            [("f"%char, EmptyString); ("u"%char, "ABC123"%string)]))
  <> "FALSE"%string.
Proof. repeat split. discriminate. Qed.

(** * Further properties of the resolver *)

Section ScanShape.

Variable usb : usb_layer.
Variable pid : Z.
Variable u : string.

(** The devices tried are an initial part of the devices passing the
    filter, in enumeration order. *)
Lemma scan_devices_opens_prefix (l : list usb_device) :
  exists rest,
    filter (candidate pid) l
    = open_attempts (fst (scan_devices usb pid u l)) ++ rest.
Proof.
  induction l as [|dev l [rest IH]]; [now exists []|].
  rewrite scan_devices_cons. simpl filter.
  destruct (accepts usb pid u dev) eqn:Ha.
  - destruct (accepts_opens usb pid u dev Ha) as (h & -> & ->).
    exists (filter (candidate pid) l). simpl fst. simpl open_attempts.
    now rewrite open_attempts_app, fst_probe.
  - destruct (candidate pid dev); [|now exists rest].
    exists rest. rewrite fst_emit. simpl. rewrite open_attempts_app, IH.
    destruct (usb_open usb dev); [now rewrite fst_probe | reflexivity].
Qed.

(** With no device passing the filter the loops do nothing. *)
Lemma scan_devices_no_candidate (l : list usb_device) :
  forallb (fun d => negb (candidate pid d)) l = true ->
  scan_devices usb pid u l = ([], false).
Proof.
  induction l as [|dev l IH]; [reflexivity|].
  simpl forallb. intros H. apply andb_true_iff in H as [Hc Hl].
  simpl. rewrite Hc. auto.
Qed.

(** The trace of the loops holds USB calls only, except for the TRUE that
    ends it when the function returns from inside. *)
Lemma scan_devices_shape (l : list usb_device) :
  exists tr,
    forallb is_usb_call tr = true /\
    fst (scan_devices usb pid u l)
    = tr ++ (if snd (scan_devices usb pid u l) then [printf "TRUE"] else []).
Proof.
  induction l as [|dev l (tr & Hu & IH)]; [now exists []|].
  rewrite scan_devices_cons.
  destruct (accepts usb pid u dev) eqn:Ha.
  - destruct (accepts_opens usb pid u dev Ha) as (h & -> & _).
    exists (UsbOpen dev (Some h) :: fst (probe usb u dev h)). split.
    + now rewrite fst_probe.
    + reflexivity.
  - destruct (candidate pid dev); [|now exists tr].
    rewrite fst_emit, snd_emit, IH.
    exists ((UsbOpen dev (usb_open usb dev)
              :: match usb_open usb dev with
                 | Some h => fst (probe usb u dev h)
                 | None => []
                 end) ++ tr).
    split; [|now rewrite app_assoc].
    rewrite forallb_app, Hu, andb_true_r.
    destruct (usb_open usb dev); [now rewrite fst_probe | reflexivity].
Qed.

Lemma scan_devices_reads (l : list usb_device) :
  (forall d, In d l -> In d (all_devices usb)) ->
  Forall (read_in_bounds usb pid) (fst (scan_devices usb pid u l)).
Proof.
  induction l as [|dev l IH]; intros Hsub; [constructor|].
  assert (IH' : Forall (read_in_bounds usb pid) (fst (scan_devices usb pid u l)))
    by (apply IH; intros d Hd; apply Hsub; now right).
  assert (Hin : In dev (all_devices usb)) by (apply Hsub; now left).
  rewrite scan_devices_cons.
  destruct (accepts usb pid u dev) eqn:Ha.
  - destruct (accepts_opens usb pid u dev Ha) as (h & -> & Hc).
    simpl fst. rewrite fst_probe. repeat constructor; simpl; eauto.
  - destruct (candidate pid dev) eqn:Hc; [|assumption].
    rewrite fst_emit. apply Forall_app. split; [|assumption].
    destruct (usb_open usb dev); [rewrite fst_probe|];
      repeat constructor; simpl; eauto.
Qed.

End ScanShape.

(** X1.  [find_driver] calls [usb_open] only on devices that pass the
    vendor and product filter, in enumeration order and without repeating
    or skipping any: the devices tried are an initial part of the filtered
    enumeration. *)
Theorem find_driver_opens_filtered_prefix (usb : usb_layer) (pid : Z)
        (udid : option string) :
  exists rest,
    filter (candidate pid) (all_devices usb)
    = open_attempts (find_driver usb pid udid) ++ rest.
Proof.
  destruct udid as [u|]; [|now eexists].
  unfold find_driver. destruct (driver_major usb =? -1); [now eexists|].
  rewrite scan_busses_flat. fold (all_devices usb).
  destruct (scan_devices_opens_prefix usb pid u (all_devices usb))
    as [rest H].
  exists rest. simpl. rewrite H.
  destruct (scan_devices usb pid u (all_devices usb)) as [tr [|]]; simpl;
    [reflexivity|].
  rewrite open_attempts_app. simpl. now rewrite app_nil_r.
Qed.

(** X2.  With a present driver and a non-null identity, FALSE is printed
    only after every device that passes the filter has been tried: the
    devices on which [usb_open] was called are all of them, in order. *)
Theorem find_driver_false_is_exhaustive (usb : usb_layer) (pid : Z)
        (u : string) :
  driver_major usb <> -1 ->
  stdout_of (find_driver usb pid (Some u)) = "FALSE"%string ->
  open_attempts (find_driver usb pid (Some u))
  = filter (candidate pid) (all_devices usb).
Proof.
  intros Hd Hf. rewrite find_driver_stdout in Hf by assumption.
  destruct (existsb (accepts usb pid u) (all_devices usb)) eqn:He;
    [discriminate|].
  unfold find_driver. apply Z.eqb_neq in Hd. rewrite Hd, scan_busses_flat.
  fold (all_devices usb).
  pose proof (scan_devices_no_match_opens usb pid u _ He) as Ho.
  pose proof (scan_devices_returned usb pid u (all_devices usb)) as Hr.
  rewrite He in Hr.
  destruct (scan_devices usb pid u (all_devices usb)) as [tr returned].
  simpl in *. subst returned. rewrite open_attempts_app. simpl.
  now rewrite app_nil_r.
Qed.

Lemma find_driver_false_is_exhaustive_witness :
  open_attempts (find_driver Scenario.two_phones 0x12a8 (Some "QRS"%string))
  = filter (candidate 0x12a8) (all_devices Scenario.two_phones).
Proof.
  apply (find_driver_false_is_exhaustive Scenario.two_phones 0x12a8 "QRS").
  - simpl. discriminate.
  - reflexivity.
Defined.

(** X3.  When no enumerated device has vendor 0x5ac and the queried
    product id, [find_driver] initialises the layer, enumerates, opens
    nothing and prints FALSE. *)
Theorem find_driver_no_candidate (usb : usb_layer) (pid : Z) (u : string) :
  driver_major usb <> -1 ->
  forallb (fun d => negb (candidate pid d)) (all_devices usb) = true ->
  find_driver usb pid (Some u) =
  [UsbInit; UsbGetVersion; UsbFindBusses; UsbFindDevices; UsbGetBusses;
   printf "FALSE"].
Proof.
  intros Hd Hn. unfold find_driver. apply Z.eqb_neq in Hd.
  rewrite Hd, scan_busses_flat. fold (all_devices usb).
  now rewrite (scan_devices_no_candidate usb pid u _ Hn).
Qed.

Lemma find_driver_no_candidate_witness :
  find_driver Scenario.two_phones 0x12ab (Some "ABC123"%string) =
  [UsbInit; UsbGetVersion; UsbFindBusses; UsbFindDevices; UsbGetBusses;
   printf "FALSE"].
Proof.
  apply (find_driver_no_candidate Scenario.two_phones 0x12ab "ABC123").
  - simpl. discriminate.
  - reflexivity.
Defined.

(** X4.  The product id is compared as an [int] with the 16-bit field, with
    no truncation: for a product id outside 0..65535 no device with a
    well-formed descriptor passes the filter, nothing is opened and FALSE is
    printed. *)
Theorem find_driver_pid_out_of_range (usb : usb_layer) (pid : Z) (u : string) :
  driver_major usb <> -1 ->
  Forall (fun d => wf_descriptor (descriptor d)) (all_devices usb) ->
  ~ (0 <= pid < 65536) ->
  open_attempts (find_driver usb pid (Some u)) = [] /\
  stdout_of (find_driver usb pid (Some u)) = "FALSE"%string.
Proof.
  intros Hd Hwf Hr.
  assert (Hn : forallb (fun d => negb (candidate pid d)) (all_devices usb)
               = true).
  { apply forallb_forall. intros d Hin. rewrite Forall_forall in Hwf.
    now rewrite (candidate_out_of_range pid d (Hwf d Hin) Hr). }
  unfold find_driver. apply Z.eqb_neq in Hd.
  rewrite Hd, scan_busses_flat. fold (all_devices usb).
  rewrite (scan_devices_no_candidate usb pid u _ Hn). now split.
Qed.

Lemma find_driver_pid_out_of_range_witness :
  open_attempts
    (find_driver Scenario.two_phones (0x12a8 + 65536) (Some "ABC123"%string))
  = [] /\
  stdout_of
    (find_driver Scenario.two_phones (0x12a8 + 65536) (Some "ABC123"%string))
  = "FALSE"%string.
Proof.
  apply (find_driver_pid_out_of_range Scenario.two_phones (0x12a8 + 65536)
           "ABC123").
  - simpl. discriminate.
  - repeat constructor; simpl; lia.
  - lia.
Defined.

(** X5.  Every run of [find_driver] ends with [printf] of exactly one of
    the two literals, and everything before that last event is a call to
    the USB layer: nothing else is printed, on either stream. *)
Theorem find_driver_prints_once_at_end (usb : usb_layer) (pid : Z)
        (udid : option string) :
  exists tr s,
    find_driver usb pid udid = tr ++ [printf s] /\
    forallb is_usb_call tr = true /\
    (s = "TRUE"%string \/ s = "FALSE"%string).
Proof.
  destruct udid as [u|]; [|exists [], "FALSE"%string; auto].
  unfold find_driver. destruct (driver_major usb =? -1).
  - exists [UsbInit; UsbGetVersion], "FALSE"%string. auto.
  - rewrite scan_busses_flat.
    destruct (scan_devices_shape usb pid u
                (List.concat (map devices (busses usb)))) as (tr & Hu & Hs).
    destruct (scan_devices usb pid u _) as [tr0 returned]. simpl in Hs.
    subst tr0.
    exists ([UsbInit; UsbGetVersion; UsbFindBusses; UsbFindDevices;
             UsbGetBusses] ++ tr).
    destruct returned.
    + exists "TRUE"%string. repeat split; auto.
    + exists "FALSE"%string. rewrite app_nil_r. repeat split; auto.
Qed.

(** X6.  A filtered device whose string read returns 0 is opened, read and
    closed, and then passed over whatever bytes the array holds: the scan
    continues with the next device. *)
Theorem scan_devices_zero_read_skipped (usb : usb_layer) (pid : Z)
        (u : string) (dev : usb_device) (h : usb_dev_handle)
        (next : list usb_device) :
  candidate pid dev = true ->
  usb_open usb dev = Some h ->
  fst (usb_get_string_simple usb h (iSerialNumber (descriptor dev)) 100) = 0 ->
  scan_devices usb pid u (dev :: next) =
  emit [UsbOpen dev (Some h);
        UsbGetStringSimple h (iSerialNumber (descriptor dev)) 100 0;
        UsbClose h]
       (scan_devices usb pid u next).
Proof.
  intros Hc Ho Hz. rewrite scan_devices_cons. unfold accepts.
  now rewrite Hc, Ho, (probe_zero usb u dev h Hz), fst_probe, Hz.
Qed.

Lemma scan_devices_zero_read_skipped_witness :
  scan_devices Scenario.empty_serial 0x12a8 EmptyString
    [Scenario.iphone 1; Scenario.iphone 2] =
  emit [UsbOpen (Scenario.iphone 1) (Some 101);
        UsbGetStringSimple 101 (iSerialNumber (descriptor (Scenario.iphone 1)))
          100 0;
        UsbClose 101]
       (scan_devices Scenario.empty_serial 0x12a8 EmptyString
          [Scenario.iphone 2]).
Proof.
  apply (scan_devices_zero_read_skipped Scenario.empty_serial 0x12a8
           EmptyString (Scenario.iphone 1) 101 [Scenario.iphone 2]).
  - reflexivity.
  - reflexivity.
  - reflexivity.
Defined.

(** X7.  Every string read of a run asks for at most the 100 bytes of the
    local array, and reads the serial-number index taken from the
    descriptor of an enumerated device that passes the filter. *)
Theorem find_driver_reads_in_bounds (usb : usb_layer) (pid : Z)
        (udid : option string) :
  Forall (read_in_bounds usb pid) (find_driver usb pid udid).
Proof.
  destruct udid as [u|]; [|repeat constructor].
  unfold find_driver. destruct (driver_major usb =? -1);
    [repeat constructor|].
  rewrite scan_busses_flat. fold (all_devices usb).
  pose proof (scan_devices_reads usb pid u (all_devices usb) (fun d H => H))
    as H.
  destruct (scan_devices usb pid u (all_devices usb)) as [tr [|]];
    simpl in *; repeat constructor; auto.
  apply Forall_app. split; [assumption | repeat constructor].
Qed.

(** * The domain table and the usage text *)

Lemma is_nul_eqb (c d : ascii) :
  Ascii.eqb c d = true -> is_nul c = is_nul d.
Proof. intros H. apply Ascii.eqb_eq in H. now subst. Qed.

Lemma starts_with_spec (needle hay : string) :
  starts_with needle hay = true <->
  exists post, c_str hay = (c_str needle ++ post)%string.
Proof.
  revert hay. induction needle as [|c n IH]; intros hay; simpl.
  - split; [intros _; now exists (c_str hay) | reflexivity].
  - destruct (is_nul c) eqn:Ec.
    + split; [intros _; now exists (c_str hay) | reflexivity].
    + destruct hay as [|d h]; simpl.
      * split; [discriminate | intros [post H]; discriminate].
      * destruct (is_nul d) eqn:Ed.
        -- split; [discriminate | intros [post H]; discriminate].
        -- rewrite andb_true_iff, IH, Ascii.eqb_eq. split.
           ++ intros [-> [post H]]. exists post. now rewrite H.
           ++ intros [post H]. inversion H. split; [reflexivity|].
              now exists post.
Qed.

(** [strstr] finds the needle exactly when the haystack's C string can be
    cut into some bytes, the needle, and some more bytes. *)
Lemma strstr_spec (hay needle : string) :
  strstr hay needle <> None <->
  exists pre post, c_str hay = (pre ++ c_str needle ++ post)%string.
Proof.
  induction hay as [|d h IH].
  - simpl. destruct (starts_with needle EmptyString) eqn:Es.
    + split; [|discriminate]. intros _. exists EmptyString.
      now apply starts_with_spec in Es.
    + split; [intros H; now contradiction H|].
      intros (pre & post & H). exfalso.
      destruct pre as [|x pre]; [|discriminate].
      assert (starts_with needle EmptyString = true)
        by (apply starts_with_spec; now exists post).
      congruence.
  - cbn [strstr]. destruct (starts_with needle (String d h)) eqn:Es.
    + split; [|discriminate]. intros _. exists EmptyString.
      now apply starts_with_spec in Es.
    + cbn [c_str]. destruct (is_nul d) eqn:Ed.
      * split; [intros H; now contradiction H|].
        intros (pre & post & H). exfalso.
        destruct pre as [|x pre]; [|discriminate].
        assert (starts_with needle (String d h) = true).
        { apply starts_with_spec. exists post. cbn [c_str]. now rewrite Ed. }
        congruence.
      * rewrite IH. split.
        -- intros (pre & post & H). exists (String d pre), post.
           simpl. now rewrite H.
        -- intros (pre & post & H). destruct pre as [|x pre].
           ++ exfalso.
              assert (starts_with needle (String d h) = true).
              { apply starts_with_spec. exists post. cbn [c_str].
                now rewrite Ed. }
              congruence.
           ++ inversion H. now exists pre, post.
Qed.

Lemma is_domain_known_loop_spec (table : list string) (domain : string) :
  (is_domain_known_loop table domain = 1 <->
   exists entry, In entry table /\ strstr domain entry <> None) /\
  (is_domain_known_loop table domain = 1 \/
   is_domain_known_loop table domain = 0).
Proof.
  induction table as [|entry rest [IH1 IH2]]; simpl.
  - split; [|now right]. split; [discriminate | intros (e & [] & _)].
  - destruct (strstr domain entry) as [s|] eqn:E.
    + split; [|now left]. split; [|reflexivity].
      intros _. exists entry. split; [now left | now rewrite E].
    + split; [|assumption]. rewrite IH1. split.
      * intros (e & Hin & H). exists e. auto.
      * intros (e & [<-|Hin] & H); [now contradiction H | eauto].
Qed.

Lemma domains_are_c_strings : Forall (fun entry => c_str entry = entry) domains.
Proof. repeat constructor. Qed.

(** X8.  [is_domain_known] returns 1 exactly when some entry of the domain
    table occurs somewhere inside the given name (as a substring, not only
    as the whole name), and 0 otherwise. *)
Theorem is_domain_known_substring (domain : string) :
  (is_domain_known domain = 1 <->
   exists entry pre post,
     In entry domains /\ c_str domain = (pre ++ entry ++ post)%string) /\
  (is_domain_known domain = 1 \/ is_domain_known domain = 0).
Proof.
  unfold is_domain_known.
  destruct (is_domain_known_loop_spec domains domain) as [H1 H2].
  split; [|assumption]. rewrite H1.
  pose proof domains_are_c_strings as Hc. rewrite Forall_forall in Hc.
  split.
  - intros (entry & Hin & H). apply strstr_spec in H as (pre & post & H).
    exists entry, pre, post. now rewrite (Hc entry Hin) in H.
  - intros (entry & pre & post & Hin & H). exists entry.
    split; [assumption|]. apply strstr_spec. exists pre, post.
    now rewrite (Hc entry Hin).
Qed.

Lemma strrchr_tail_none (ch : ascii) (s : string) :
  lacks ch s = true -> strrchr_tail ch s = None.
Proof.
  induction s as [|c r IH]; [reflexivity|]. simpl.
  intros H. apply andb_true_iff in H as [Hc Hr].
  destruct (is_nul c); [reflexivity|]. rewrite (IH Hr).
  apply negb_true_iff in Hc. now rewrite Hc.
Qed.

Lemma strrchr_tail_last (ch : ascii) (dir base : string) :
  is_nul ch = false -> c_str dir = dir -> lacks ch base = true ->
  strrchr_tail ch (dir ++ String ch base) = Some base.
Proof.
  intros Hn Hd Hb. induction dir as [|c d IH]; simpl.
  - now rewrite Hn, (strrchr_tail_none ch base Hb), Ascii.eqb_refl.
  - simpl in Hd. destruct (is_nul c); [discriminate|].
    inversion Hd as [Hd']. rewrite Hd'. now rewrite (IH Hd').
Qed.

Lemma print_usage_events (pkg : package) (argv0 : string) (is_error : bool) :
  Forall (fun e => exists text,
              e = Fprintf (if is_error then stderr else stdout) text)
         (print_usage pkg argv0 is_error).
Proof. unfold print_usage. simpl. repeat constructor; eexists; reflexivity. Qed.

(** X9.  [print_usage] only prints, and only on one stream: standard error
    when [is_error] is set, standard output otherwise.  It makes 33 calls
    to [fprintf]: the usage line, the option text, the heading, one line
    for each of the 29 table entries, and the footer. *)
Theorem print_usage_one_stream (pkg : package) (argv0 : string)
        (is_error : bool) :
  forallb (if is_error then is_stderr else is_stdout)
          (print_usage pkg argv0 is_error) = true /\
  stdout_of (print_usage pkg argv0 true) = EmptyString /\
  List.length (print_usage pkg argv0 is_error) = (4 + List.length domains)%nat.
Proof.
  split; [|split].
  - destruct is_error; reflexivity.
  - reflexivity.
  - reflexivity.
Qed.

(** X10.  The usage line names the program by the part of [argv[0]] after
    its last slash, and by the whole of [argv[0]] when it holds no slash. *)
Theorem print_usage_program_name (pkg : package) (dir base : string)
        (is_error : bool) :
  c_str dir = dir ->
  lacks "/"%char base = true ->
  let f := if is_error then stderr else stdout in
  hd_error (print_usage pkg (dir ++ String "/"%char base) is_error)
  = Some (Fprintf f ("Usage: " ++ c_str base ++ " [OPTIONS]" ++ nl)) /\
  hd_error (print_usage pkg base is_error)
  = Some (Fprintf f ("Usage: " ++ c_str base ++ " [OPTIONS]" ++ nl)).
Proof.
  intros Hd Hb f. unfold print_usage.
  rewrite (strrchr_tail_last "/"%char dir base eq_refl Hd Hb).
  now rewrite (strrchr_tail_none "/"%char base Hb).
Qed.

Lemma print_usage_program_name_witness :
  hd_error (print_usage Scenario.pkg
              ("/usr/local/bin" ++ String "/"%char "ideviceinfo") true)
  = Some (Fprintf stderr
            ("Usage: " ++ c_str "ideviceinfo" ++ " [OPTIONS]" ++ nl)) /\
  hd_error (print_usage Scenario.pkg "ideviceinfo" true)
  = Some (Fprintf stderr
            ("Usage: " ++ c_str "ideviceinfo" ++ " [OPTIONS]" ++ nl)).
Proof.
  apply (print_usage_program_name Scenario.pkg "/usr/local/bin" "ideviceinfo"
           true).
  - reflexivity.
  - reflexivity.
Defined.

(** * The whole of [main] *)

#[local] Arguments print_usage : simpl never.

Lemma forallb_impl {A : Type} (p q : A -> bool) (l : list A) :
  (forall x, p x = true -> q x = true) ->
  forallb p l = true -> forallb q l = true.
Proof.
  intros Hpq. induction l as [|x l IH]; [reflexivity|]. simpl.
  intros H. apply andb_true_iff in H as [Hx Hl].
  now rewrite (Hpq x Hx), (IH Hl).
Qed.

Lemma usb_call_neutral (e : event) :
  is_usb_call e = true -> is_session_neutral e = true.
Proof. now destruct e. Qed.

Lemma find_driver_neutral (usb : usb_layer) (pid : Z) (udid : option string) :
  forallb is_session_neutral (find_driver usb pid udid) = true.
Proof.
  destruct udid as [u|]; [|reflexivity].
  unfold find_driver. destruct (driver_major usb =? -1); [reflexivity|].
  rewrite scan_busses_flat.
  destruct (scan_devices_shape usb pid u
              (List.concat (map devices (busses usb)))) as (tr & Hu & Hs).
  apply (forallb_impl _ _ _ usb_call_neutral) in Hu.
  destruct (scan_devices usb pid u _) as [tr0 returned]. simpl in *.
  subst tr0. destruct returned; rewrite ?app_nil_r, !forallb_app, Hu;
    reflexivity.
Qed.

Lemma print_usage_neutral (pkg : package) (argv0 : string) (is_error : bool) :
  forallb is_session_neutral (print_usage pkg argv0 is_error) = true.
Proof. destruct is_error; reflexivity. Qed.


Lemma print_usage_error_stdout (pkg : package) (argv0 : string) :
  stdout_of (print_usage pkg argv0 true) = EmptyString.
Proof. reflexivity. Qed.


Lemma debug_only_neutral (tr : trace) :
  Forall (fun e => e = IdeviceSetDebugLevel 1) tr ->
  forallb is_session_neutral tr = true.
Proof. induction 1 as [|e tr -> _ IH]; simpl; auto. Qed.

Lemma is_empty_c_str (s : string) :
  is_empty s = false -> c_str s <> EmptyString.
Proof.
  destruct s as [|c r]; simpl; [discriminate|].
  intros ->. discriminate.
Qed.

Lemma fold_left_flag {A B : Type} (p : B -> bool) (v : A) (l : list B)
      (a : A) :
  fold_left (fun acc o => if p o then v else acc) l a
  = if existsb p l then v else fold_left (fun acc o => acc) l a.
Proof.
  revert a. induction l as [|o l IH]; intros a; [reflexivity|].
  simpl. rewrite !IH. destruct (p o); simpl; [|reflexivity].
  destruct (existsb p l); [reflexivity|].
  clear. induction l; simpl; auto.
Qed.

Lemma fold_left_keep {A B : Type} (l : list B) (a : A) :
  fold_left (fun acc _ => acc) l a = a.
Proof. induction l; simpl; auto. Qed.

Section MainCases.

Variable pkg : package.
Variable usb : usb_layer.
Variable lib : imobiledevice.
Variable atoi : string -> Z.
Variable argv0 : string.

Local Abbreviation case := (option_case pkg usb atoi argv0).
Local Abbreviation loop := (getopt_loop pkg usb atoi argv0).
Local Abbreviation usage := (print_usage pkg argv0).

Ltac each_option o H :=
  unfold option_case; destruct o as [c optarg];
  destruct c as [[] [] [] [] [] [] [] []]; simpl;
  try destruct (is_empty optarg) eqn:?;
  intros H; inversion H; subst; clear H.

(** The locals after an option that lets the loop go on. *)
Lemma option_case_break_locals (st st' : locals) (o : getopt_answer)
      (tr : trace) :
  case st o = (tr, Break st') ->
  let given c := Ascii.eqb (fst o) c in
  udid st' = (if given "u"%char then Some (c_str (snd o)) else udid st) /\
  domain st' = (if given "q"%char then Some (c_str (snd o)) else domain st) /\
  key st' = (if given "k"%char then Some (c_str (snd o)) else key st) /\
  format st' = (if given "x"%char then FORMAT_XML else format st) /\
  simple st' = (if given "s"%char then 1 else simple st) /\
  use_network st' = (if given "n"%char then 1 else use_network st) /\
  (assistive_func st', assistive_enable st')
  = (if given "a"%char then (1, 1)
     else if given "r"%char then (1, 0)
     else if given "g"%char then (1, 10)
     else (assistive_func st, assistive_enable st)).
Proof.
  each_option o H; simpl; repeat split.
Qed.

(** Arguments kept by the loop are not empty. *)
Lemma option_case_break_nonempty (st st' : locals) (o : getopt_answer)
      (tr : trace) :
  case st o = (tr, Break st') ->
  udid st <> Some EmptyString /\ domain st <> Some EmptyString /\
  key st <> Some EmptyString ->
  udid st' <> Some EmptyString /\ domain st' <> Some EmptyString /\
  key st' <> Some EmptyString.
Proof.
  each_option o H; simpl; intros (Hu & Hd & Hk); repeat split; auto;
    intros E; inversion E as [E']; revert E'; now apply is_empty_c_str.
Qed.

(** The trace and the status of an option that makes [main] return. *)
Lemma option_case_return (st : locals) (o : getopt_answer) (tr : trace)
      (status : Z) :
  case st o = (tr, Return status) ->
  (status = 0 \/ status = 2) /\
  (status = 2 ->
   tr = usage true \/ exists msg, tr = Fprintf stderr msg :: usage true).
Proof.
  each_option o H; (split; [auto|]); intros E; try discriminate E;
    first [now left | right; eexists; reflexivity].
Qed.

Lemma option_case_neutral (st : locals) (o : getopt_answer) (tr : trace)
      (r : flow) :
  case st o = (tr, r) -> forallb is_session_neutral tr = true.
Proof.
  each_option o H; simpl;
    rewrite ?print_usage_neutral, ?find_driver_neutral; reflexivity.
Qed.


End MainCases.

Section MainRuns.

Variable pkg : package.
Variable usb : usb_layer.
Variable lib : imobiledevice.
Variable atoi : string -> Z.
Variable argv0 : string.

Local Abbreviation case := (option_case pkg usb atoi argv0).
Local Abbreviation loop := (getopt_loop pkg usb atoi argv0).
Local Abbreviation usage := (print_usage pkg argv0).
Local Abbreviation rest_of_main := (after_options lib).

(** A loop that ends by [return] does so at one answer, reached through
    answers that all let it go on. *)
Lemma getopt_loop_return (answers : list getopt_answer) (st : locals)
      (tr : trace) (status : Z) :
  loop st answers = (tr, Return status) ->
  exists pre o post tr1 st1 tr2,
    answers = pre ++ o :: post /\
    loop st pre = (tr1, Break st1) /\
    case st1 o = (tr2, Return status) /\
    tr = tr1 ++ tr2.
Proof.
  revert st tr. induction answers as [|o rest IH]; intros st tr; simpl;
    [discriminate|].
  destruct (case st o) as [tr1 [s|st1]] eqn:E1.
  - intros H. inversion H. subst.
    exists [], o, rest, [], st, tr. repeat split; auto.
  - destruct (loop st1 rest) as [tr2 [s|st2]] eqn:E2; [|discriminate].
    intros H. inversion H. subst.
    destruct (IH _ _ E2) as (pre & o' & post & t1 & s1 & t2 & -> & Hl & Hc & ->).
    exists (o :: pre), o', post, (tr1 ++ t1), s1, t2.
    repeat split; auto.
    + simpl. now rewrite E1, Hl.
    + now rewrite app_assoc.
Qed.

Lemma getopt_loop_neutral (answers : list getopt_answer) (st : locals)
      (tr : trace) (r : flow) :
  loop st answers = (tr, r) -> forallb is_session_neutral tr = true.
Proof.
  destruct r as [status|st'].
  - intros H.
    destruct (getopt_loop_return _ _ _ _ H)
      as (pre & o & post & t1 & s1 & t2 & _ & Hl & Hc & ->).
    rewrite forallb_app.
    apply getopt_loop_break in Hl as [Hq _].
    now rewrite (debug_only_neutral _ Hq), (option_case_neutral _ _ _ _ _ _ _ _ Hc).
  - intros H. apply getopt_loop_break in H as [Hq _].
    now apply debug_only_neutral.
Qed.

(** The locals the loop leaves, from the locals it starts with. *)
Lemma getopt_loop_locals (answers : list getopt_answer) (st st' : locals)
      (tr : trace) :
  loop st answers = (tr, Break st') ->
  domain st'
  = fold_left (fun acc (o : getopt_answer) =>
                 if Ascii.eqb (fst o) "q"%char then Some (c_str (snd o))
                 else acc) answers (domain st) /\
  key st'
  = fold_left (fun acc (o : getopt_answer) =>
                 if Ascii.eqb (fst o) "k"%char then Some (c_str (snd o))
                 else acc) answers (key st) /\
  format st' = (if has_option "x"%char answers then FORMAT_XML
                else format st) /\
  simple st' = (if has_option "s"%char answers then 1 else simple st) /\
  use_network st' = (if has_option "n"%char answers then 1
                     else use_network st) /\
  (assistive_func st', assistive_enable st')
  = fold_left
      (fun acc (o : getopt_answer) =>
         if Ascii.eqb (fst o) "a"%char then (1, 1)
         else if Ascii.eqb (fst o) "r"%char then (1, 0)
         else if Ascii.eqb (fst o) "g"%char then (1, 10)
         else acc)
      answers (assistive_func st, assistive_enable st).
Proof.
  revert st tr. induction answers as [|o rest IH]; intros st tr; simpl.
  - intros H. inversion H. subst. repeat split.
  - destruct (case st o) as [tr1 [s|st1]] eqn:E1; [discriminate|].
    destruct (loop st1 rest) as [tr2 [s|st2]] eqn:E2; [discriminate|].
    intros H. inversion H. subst.
    destruct (IH _ _ E2) as (Hd & Hk & Hf & Hs & Hn & Ha).
    destruct (option_case_break_locals _ _ _ _ _ _ _ _ E1)
      as (_ & Hd1 & Hk1 & Hf1 & Hs1 & Hn1 & Ha1).
    cbv zeta in *.
    rewrite Hd, Hk, Hf, Hs, Hn, Ha, Hd1, Hk1, Hf1, Hs1, Hn1, Ha1.
    repeat split.
    + now destruct (Ascii.eqb (fst o) "x"%char), (has_option "x"%char rest).
    + now destruct (Ascii.eqb (fst o) "s"%char), (has_option "s"%char rest).
    + now destruct (Ascii.eqb (fst o) "n"%char), (has_option "n"%char rest).
Qed.

Lemma getopt_loop_nonempty (answers : list getopt_answer) (st st' : locals)
      (tr : trace) :
  loop st answers = (tr, Break st') ->
  udid st <> Some EmptyString /\ domain st <> Some EmptyString /\
  key st <> Some EmptyString ->
  udid st' <> Some EmptyString /\ domain st' <> Some EmptyString /\
  key st' <> Some EmptyString.
Proof.
  revert st tr. induction answers as [|o rest IH]; intros st tr; simpl.
  - intros H. inversion H. now subst.
  - destruct (case st o) as [tr1 [s|st1]] eqn:E1; [discriminate|].
    destruct (loop st1 rest) as [tr2 [s|st2]] eqn:E2; [discriminate|].
    intros H Hst. inversion H. subst.
    apply (IH _ _ E2). now apply (option_case_break_nonempty _ _ _ _ _ _ _ _ E1).
Qed.

(** ** After the options *)

Ltac branches :=
  repeat (simpl in *; try reflexivity; try discriminate;
          match goal with
          | |- context [?a =? ?a] => rewrite (Z.eqb_refl a)
          | H : ?x = _ |- context [?x] => rewrite H
          | |- context [?a =? ?b] =>
              lazymatch a with
              | context [if _ then _ else _] => fail
              | _ => destruct (a =? b) eqn:?
              end
          | |- context [let '(_, _) := ?p in _] => destruct p eqn:?
          | |- context [match ?x with Some _ => _ | None => _ end] =>
              destruct x eqn:?
          end).

Lemma after_options_status (st : locals) :
  snd (rest_of_main st) = 0 \/ snd (rest_of_main st) = -1.
Proof.
  unfold after_options, assistive, query, emit.
  repeat match goal with
         | |- context [if ?b then _ else _] => destruct b
         end; simpl; auto.
Qed.


(** The resource discipline holds on every path after the options. *)
Lemma after_options_session (st : locals) :
  session_ok lib no_session (fst (rest_of_main st)) = true.
Proof.
  unfold after_options, assistive, query, emit, could_not_connect,
    no_session.
  rewrite !(Z.eqb_sym LOCKDOWN_E_SUCCESS).
  branches.
Qed.

Lemma after_options_failure (st : locals) :
  snd (rest_of_main st) = -1 ->
  existsb is_value_call (fst (rest_of_main st)) = false.
Proof.
  unfold after_options, assistive, query, emit, could_not_connect.
  repeat match goal with
         | |- context [if ?b then _ else _] => destruct b
         | |- context [let '(_, _) := ?p in _] => destruct p
         | |- context [match ?x with Some _ => _ | None => _ end] =>
             destruct x
         end; simpl; intros H; try reflexivity; discriminate.
Qed.


(** In the assistive branch only the identity, the lookup and
    [assistive_enable] matter. *)
Lemma after_options_assistive (st st' : locals) :
  assistive_func st = 1 -> assistive_func st' = 1 ->
  udid st = udid st' -> use_network st = use_network st' ->
  assistive_enable st = assistive_enable st' ->
  rest_of_main st = rest_of_main st'.
Proof.
  intros Hf Hf' Hu Hn He. unfold after_options, assistive.
  now rewrite Hf, Hf', Hu, Hn, He.
Qed.

End MainRuns.


Lemma neutral_no_value (tr : trace) :
  forallb is_session_neutral tr = true ->
  existsb is_value_call tr = false /\ existsb is_set_value tr = false.
Proof.
  induction tr as [|e tr IH]; [now split|]. simpl.
  intros H. apply andb_true_iff in H as [He Ht].
  destruct (IH Ht) as [-> ->]. now destruct e.
Qed.

Lemma session_ok_neutral_app (lib : imobiledevice) (s : session)
      (t1 t2 : trace) :
  forallb is_session_neutral t1 = true ->
  session_ok lib s (t1 ++ t2) = session_ok lib s t2.
Proof.
  induction t1 as [|e t1 IH]; [reflexivity|]. simpl.
  intros H. apply andb_true_iff in H as [He Ht].
  destruct e; try discriminate; simpl; auto.
Qed.



(** X11.  When the option loop ends by [break], the locals are decided by
    the answers as follows: the identity, the domain and the key are the
    arguments of the last [-u], [-q] and [-k]; the format is XML exactly
    when some [-x] was given; [simple] and [use_network] are 1 exactly when
    some [-s], some [-n] was given; and the assistive mode is the one set
    by the last of [-a], [-r] and [-g]. *)
Theorem getopt_loop_last_wins (pkg : package) (usb : usb_layer)
        (atoi : string -> Z) (argv0 : string)
        (answers : list getopt_answer) (tr : trace) (st : locals) :
  getopt_loop pkg usb atoi argv0 initial_locals answers = (tr, Break st) ->
  udid st = last_arg "u"%char answers /\
  domain st = last_arg "q"%char answers /\
  key st = last_arg "k"%char answers /\
  format st = (if has_option "x"%char answers then FORMAT_XML
               else FORMAT_KEY_VALUE) /\
  simple st = (if has_option "s"%char answers then 1 else 0) /\
  use_network st = (if has_option "n"%char answers then 1 else 0) /\
  (assistive_func st, assistive_enable st) = last_assistive answers.
Proof.
  intros H.
  destruct (getopt_loop_break _ _ _ _ _ _ _ _ H) as [_ Hu].
  destruct (getopt_loop_locals _ _ _ _ _ _ _ _ H)
    as (Hd & Hk & Hf & Hs & Hn & Ha).
  repeat split; assumption.
Qed.

Lemma getopt_loop_last_wins_witness :
  let answers :=
    [("u"%char, "XYZ"%string); ("a"%char, EmptyString);
     ("q"%char, "com.apple.disk_usage"%string); ("x"%char, EmptyString);
     ("u"%char, "ABC123"%string); ("g"%char, EmptyString)] in
  let st :=
    {| simple := 0; format := FORMAT_XML; udid := Some "ABC123"%string;
       use_network := 0; assistive_func := 1; assistive_enable := 10;
       domain := Some "com.apple.disk_usage"%string; key := None |} in
  udid st = last_arg "u"%char answers /\
  domain st = last_arg "q"%char answers /\
  key st = last_arg "k"%char answers /\
  format st = (if has_option "x"%char answers then FORMAT_XML
               else FORMAT_KEY_VALUE) /\
  simple st = (if has_option "s"%char answers then 1 else 0) /\
  use_network st = (if has_option "n"%char answers then 1 else 0) /\
  (assistive_func st, assistive_enable st) = last_assistive answers.
Proof.
  apply (getopt_loop_last_wins Scenario.pkg Scenario.one_phone Scenario.atoi
           "ideviceinfo" _ []).
  reflexivity.
Defined.

(** X12.  When the option loop ends by [break], none of the identity, the
    domain and the key is an empty string: each is NULL or has at least one
    byte.  So neither [idevice_new_with_options] nor [lockdownd_get_value]
    is ever handed an empty string by [main]. *)
Theorem getopt_loop_arguments_nonempty (pkg : package) (usb : usb_layer)
        (atoi : string -> Z) (argv0 : string)
        (answers : list getopt_answer) (tr : trace) (st : locals) :
  getopt_loop pkg usb atoi argv0 initial_locals answers = (tr, Break st) ->
  udid st <> Some EmptyString /\ domain st <> Some EmptyString /\
  key st <> Some EmptyString.
Proof.
  intros H. apply (getopt_loop_nonempty _ _ _ _ _ _ _ _ H).
  repeat split; discriminate.
Qed.

Lemma getopt_loop_arguments_nonempty_witness :
  let st := set_key (set_udid initial_locals (Some "ABC123"%string))
                    (Some "DeviceName"%string) in
  udid st <> Some EmptyString /\ domain st <> Some EmptyString /\
  key st <> Some EmptyString.
Proof.
  apply (getopt_loop_arguments_nonempty Scenario.pkg Scenario.one_phone
           Scenario.atoi "ideviceinfo"
           [("u"%char, "ABC123"%string); ("k"%char, "DeviceName"%string)] []).
  reflexivity.
Defined.

(** X13.  [main] returns 0, 2 or -1 and nothing else. *)
Theorem main_exit_status (pkg : package) (usb : usb_layer)
        (lib : imobiledevice) (atoi : string -> Z) (argv0 : string)
        (answers : list getopt_answer) :
  snd (main pkg usb lib atoi argv0 answers) = 0 \/
  snd (main pkg usb lib atoi argv0 answers) = 2 \/
  snd (main pkg usb lib atoi argv0 answers) = -1.
Proof.
  unfold main.
  destruct (getopt_loop pkg usb atoi argv0 initial_locals answers)
    as [tr [status|st]] eqn:E.
  - destruct (getopt_loop_return _ _ _ _ _ _ _ _ E)
      as (pre & o & post & t1 & s1 & t2 & _ & _ & Hc & _).
    destruct (option_case_return _ _ _ _ _ _ _ _ Hc) as [[->| ->] _]; auto.
  - rewrite snd_emit. destruct (after_options_status lib st) as [->| ->]; auto.
Qed.





(** X16.  Every run of [main] keeps the resource discipline of
    [session_ok]: a lockdown client is requested only once a device has
    been obtained, values are read and written only through a client that
    was obtained, every node received is freed once, and on every path,
    the failing ones included, whatever was obtained has been freed when
    [main] returns. *)
Theorem main_session_discipline (pkg : package) (usb : usb_layer)
        (lib : imobiledevice) (atoi : string -> Z) (argv0 : string)
        (answers : list getopt_answer) :
  session_ok lib no_session (fst (main pkg usb lib atoi argv0 answers))
  = true.
Proof.
  unfold main.
  destruct (getopt_loop pkg usb atoi argv0 initial_locals answers)
    as [tr [status|st]] eqn:E;
    pose proof (getopt_loop_neutral _ _ _ _ _ _ _ _ E) as Hn.
  - simpl. rewrite <- (app_nil_r tr).
    now rewrite (session_ok_neutral_app lib no_session tr [] Hn).
  - rewrite fst_emit, (session_ok_neutral_app lib no_session tr _ Hn).
    apply after_options_session.
Qed.

Lemma string_app_empty_r (s : string) : (s ++ EmptyString)%string = s.
Proof. induction s as [|c r IH]; simpl; congruence. Qed.



(** X18.  Once one of [-a], [-r] and [-g] is given, the options [-q], [-k],
    [-x] and [-s] have no effect: two command lines that agree on the last
    assistive flag, on the last [-u] and on the presence of [-n] run the
    same calls and print the same text after the option loop. *)
Theorem main_assistive_ignores_query_options
        (pkg : package) (usb : usb_layer) (lib : imobiledevice)
        (atoi : string -> Z) (argv0 : string)
        (a1 a2 : list getopt_answer) (tr1 tr2 : trace) (st1 st2 : locals) :
  getopt_loop pkg usb atoi argv0 initial_locals a1 = (tr1, Break st1) ->
  getopt_loop pkg usb atoi argv0 initial_locals a2 = (tr2, Break st2) ->
  fst (last_assistive a1) = 1 ->
  last_assistive a1 = last_assistive a2 ->
  last_arg "u"%char a1 = last_arg "u"%char a2 ->
  has_option "n"%char a1 = has_option "n"%char a2 ->
  after_options lib st1 = after_options lib st2.
Proof.
  intros H1 H2 Hf Ha Hu Hn.
  destruct (getopt_loop_break _ _ _ _ _ _ _ _ H1) as [_ Hu1].
  destruct (getopt_loop_break _ _ _ _ _ _ _ _ H2) as [_ Hu2].
  destruct (getopt_loop_locals _ _ _ _ _ _ _ _ H1)
    as (_ & _ & _ & _ & Hn1 & Ha1).
  destruct (getopt_loop_locals _ _ _ _ _ _ _ _ H2)
    as (_ & _ & _ & _ & Hn2 & Ha2).
  change (fold_left _ a1 _) with (last_assistive a1) in Ha1.
  change (fold_left _ a2 _) with (last_assistive a2) in Ha2.
  rewrite <- Ha, <- Ha1 in Ha2. inversion Ha2 as [[Hf2 He2]].
  rewrite <- Ha1 in Hf. simpl in Hf.
  apply after_options_assistive.
  - assumption.
  - congruence.
  - change (udid st1 = last_arg "u"%char a1) in Hu1.
    change (udid st2 = last_arg "u"%char a2) in Hu2. congruence.
  - rewrite Hn1, Hn2, Hn. reflexivity.
  - congruence.
Qed.

Lemma main_assistive_ignores_query_options_witness :
  after_options Paired.lib (set_assistive initial_locals 1 10)
  = after_options Paired.lib
      (set_key
         (set_assistive
            (set_simple
               (set_format
                  (set_domain initial_locals
                     (Some "com.apple.disk_usage"%string))
                  FORMAT_XML) 1) 1 10)
         (Some "TotalDiskCapacity"%string)).
Proof.
  apply (main_assistive_ignores_query_options Scenario.pkg Scenario.one_phone
           Paired.lib Scenario.atoi "ideviceinfo"
           [("g"%char, EmptyString)]
           [("q"%char, "com.apple.disk_usage"%string); ("x"%char, EmptyString);
            ("s"%char, EmptyString); ("g"%char, EmptyString);
            ("k"%char, "TotalDiskCapacity"%string)] [] []).
  - reflexivity.
  - reflexivity.
  - reflexivity.
  - reflexivity.
  - reflexivity.
  - reflexivity.
Defined.

(** X19.  When [main] returns -1 no value has been read or written on the
    device: the status -1 comes only from a device or a lockdown client
    that could not be obtained. *)
Theorem main_failure_no_value (pkg : package) (usb : usb_layer)
        (lib : imobiledevice) (atoi : string -> Z) (argv0 : string)
        (answers : list getopt_answer) :
  snd (main pkg usb lib atoi argv0 answers) = -1 ->
  existsb is_value_call (fst (main pkg usb lib atoi argv0 answers)) = false.
Proof.
  unfold main.
  destruct (getopt_loop pkg usb atoi argv0 initial_locals answers)
    as [tr [status|st]] eqn:E;
    pose proof (getopt_loop_neutral _ _ _ _ _ _ _ _ E) as Hn;
    apply neutral_no_value in Hn as [Hn _].
  - intros _. exact Hn.
  - rewrite snd_emit, fst_emit, existsb_app, Hn. intros H.
    now apply after_options_failure.
Qed.

Lemma main_failure_no_value_witness :
  existsb is_value_call
    (fst (Paired.run Paired.refused
            [("q"%char, "com.apple.disk_usage"%string)])) = false.
Proof.
  apply (main_failure_no_value Scenario.pkg Scenario.one_phone Paired.refused
           Scenario.atoi "/usr/bin/ideviceinfo"
           [("q"%char, "com.apple.disk_usage"%string)]).
  reflexivity.
Defined.



(** X21.  A plain query that succeeds prints the value once, as XML when
    some [-x] was given and as key/value text otherwise (the [default] case
    of the format switch is never taken), and returns 0.  The device is
    looked up with the last [-u] and over the network exactly when [-n] was
    given; the client is made without handshake exactly when [-s] was
    given; the value is asked for the last [-q] and the last [-k]. *)
Theorem main_query_output (pkg : package) (usb : usb_layer)
        (lib : imobiledevice) (atoi : string -> Z) (argv0 : string)
        (answers : list getopt_answer) (tr : trace) (st : locals)
        (n : plist_t) :
  getopt_loop pkg usb atoi argv0 initial_locals answers = (tr, Break st) ->
  fst (last_assistive answers) = 0 ->
  idevice_new_with_options lib (last_arg "u"%char answers)
    (has_option "n"%char answers) = IDEVICE_E_SUCCESS ->
  (if has_option "s"%char answers then lockdownd_client_new lib TOOL_NAME
   else lockdownd_client_new_with_handshake lib TOOL_NAME)
  = LOCKDOWN_E_SUCCESS ->
  lockdownd_get_value lib (last_arg "q"%char answers)
    (last_arg "k"%char answers) = (LOCKDOWN_E_SUCCESS, Some n) ->
  snd (main pkg usb lib atoi argv0 answers) = 0 /\
  stdout_of (fst (main pkg usb lib atoi argv0 answers))
  = (if has_option "x"%char answers then plist_to_xml lib n
     else plist_print_to_stream lib n) /\
  fst (main pkg usb lib atoi argv0 answers)
  = tr ++
    [IdeviceNewWithOptions (last_arg "u"%char answers)
       (has_option "n"%char answers);
     (if has_option "s"%char answers then LockdowndClientNew TOOL_NAME
      else LockdowndClientNewWithHandshake TOOL_NAME);
     LockdowndGetValue (last_arg "q"%char answers) (last_arg "k"%char answers);
     printf (if has_option "x"%char answers then plist_to_xml lib n
             else plist_print_to_stream lib n);
     PlistFree n; LockdowndClientFree; IdeviceFree].
Proof.
  intros E Ha Hd Hc Hg.
  destruct (getopt_loop_break _ _ _ _ _ _ _ _ E) as [Hq Hu].
  destruct (getopt_loop_locals _ _ _ _ _ _ _ _ E)
    as (Hdm & Hk & Hf & Hs & Hn & Has).
  change (udid st = last_arg "u"%char answers) in Hu.
  change (domain st = last_arg "q"%char answers) in Hdm.
  change (key st = last_arg "k"%char answers) in Hk.
  change (fold_left _ answers _) with (last_assistive answers) in Has.
  assert (Hfun : assistive_func st = 0)
    by (destruct (last_assistive answers); inversion Has; subst; exact Ha).
  assert (Hnet : negb (use_network st =? 0) = has_option "n"%char answers)
    by (rewrite Hn; now destruct (has_option "n"%char answers)).
  assert (Hsim : negb (simple st =? 0) = has_option "s"%char answers)
    by (rewrite Hs; now destruct (has_option "s"%char answers)).
  assert (Hrun : main pkg usb lib atoi argv0 answers
                 = (tr ++
                    [IdeviceNewWithOptions (last_arg "u"%char answers)
                       (has_option "n"%char answers);
                     (if has_option "s"%char answers
                      then LockdowndClientNew TOOL_NAME
                      else LockdowndClientNewWithHandshake TOOL_NAME);
                     LockdowndGetValue (last_arg "q"%char answers)
                       (last_arg "k"%char answers);
                     printf (if has_option "x"%char answers
                             then plist_to_xml lib n
                             else plist_print_to_stream lib n);
                     PlistFree n; LockdowndClientFree; IdeviceFree], 0)).
  { unfold main. rewrite E. unfold after_options, query.
    rewrite Hnet, Hsim, Hu, Hdm, Hk, Hfun, Hf, Hd.
    rewrite (Z.eqb_sym LOCKDOWN_E_SUCCESS).
    destruct (has_option "s"%char answers); rewrite Hc, Hg;
      destruct (has_option "x"%char answers); reflexivity. }
  rewrite Hrun. split; [reflexivity|]. split; [|reflexivity].
  simpl fst. rewrite stdout_of_app, (debug_only_stdout _ Hq).
  cbn [stdout_of printf]. destruct (has_option "s"%char answers);
    now rewrite string_app_empty_r.
Qed.

Lemma main_query_output_witness :
  let answers := [("x"%char, EmptyString);
                  ("q"%char, "com.apple.disk_usage"%string);
                  ("s"%char, EmptyString)] in
  snd (Paired.run Paired.lib answers) = 0 /\
  stdout_of (fst (Paired.run Paired.lib answers))
  = (if has_option "x"%char answers then plist_to_xml Paired.lib 7
     else plist_print_to_stream Paired.lib 7) /\
  fst (Paired.run Paired.lib answers)
  = [] ++
    [IdeviceNewWithOptions (last_arg "u"%char answers)
       (has_option "n"%char answers);
     (if has_option "s"%char answers then LockdowndClientNew TOOL_NAME
      else LockdowndClientNewWithHandshake TOOL_NAME);
     LockdowndGetValue (last_arg "q"%char answers) (last_arg "k"%char answers);
     printf (if has_option "x"%char answers then plist_to_xml Paired.lib 7
             else plist_print_to_stream Paired.lib 7);
     PlistFree 7; LockdowndClientFree; IdeviceFree].
Proof.
  apply (main_query_output Scenario.pkg Scenario.one_phone Paired.lib
           Scenario.atoi "/usr/bin/ideviceinfo"
           [("x"%char, EmptyString);
            ("q"%char, "com.apple.disk_usage"%string);
            ("s"%char, EmptyString)]
           []
           (set_simple
              (set_domain (set_format initial_locals FORMAT_XML)
                 (Some "com.apple.disk_usage"%string)) 1)
           7).
  - reflexivity.
  - reflexivity.
  - reflexivity.
  - reflexivity.
  - reflexivity.
Defined.

(** X22.  When no device can be obtained, [main] reports it on standard
    output (not on standard error), naming the identity of the last [-u]
    if there is one, and returns -1 without any lockdown call and without
    freeing anything. *)
Theorem main_device_not_found (pkg : package) (usb : usb_layer)
        (lib : imobiledevice) (atoi : string -> Z) (argv0 : string)
        (answers : list getopt_answer) (tr : trace) (st : locals) :
  getopt_loop pkg usb atoi argv0 initial_locals answers = (tr, Break st) ->
  idevice_new_with_options lib (last_arg "u"%char answers)
    (has_option "n"%char answers) <> IDEVICE_E_SUCCESS ->
  main pkg usb lib atoi argv0 answers
  = (tr ++ [IdeviceNewWithOptions (last_arg "u"%char answers)
              (has_option "n"%char answers);
            printf (match last_arg "u"%char answers with
                    | Some u => "ERROR: Device " ++ u ++ " not found!" ++ nl
                    | None => "ERROR: No device found!" ++ nl
                    end)], -1).
Proof.
  intros E Hd.
  destruct (getopt_loop_break _ _ _ _ _ _ _ _ E) as [_ Hu].
  destruct (getopt_loop_locals _ _ _ _ _ _ _ _ E)
    as (_ & _ & _ & _ & Hn & _).
  change (udid st = last_arg "u"%char answers) in Hu.
  assert (Hnet : negb (use_network st =? 0) = has_option "n"%char answers)
    by (rewrite Hn; now destruct (has_option "n"%char answers)).
  unfold main. rewrite E. unfold after_options.
  rewrite Hnet, Hu. apply Z.eqb_neq in Hd. rewrite Hd.
  now destruct (last_arg "u"%char answers).
Qed.

Lemma main_device_not_found_witness :
  Scenario.run Scenario.one_phone
    [("u"%char, "ABC123"%string); ("n"%char, EmptyString)]
  = ([] ++ [IdeviceNewWithOptions
              (last_arg "u"%char
                 [("u"%char, "ABC123"%string); ("n"%char, EmptyString)])
              (has_option "n"%char
                 [("u"%char, "ABC123"%string); ("n"%char, EmptyString)]);
            printf (match last_arg "u"%char
                            [("u"%char, "ABC123"%string);
                             ("n"%char, EmptyString)] with
                    | Some u => "ERROR: Device " ++ u ++ " not found!" ++ nl
                    | None => "ERROR: No device found!" ++ nl
                    end)], -1).
Proof.
  apply (main_device_not_found Scenario.pkg Scenario.one_phone
           Scenario.no_device Scenario.atoi "ideviceinfo"
           [("u"%char, "ABC123"%string); ("n"%char, EmptyString)] []
           (set_use_network (set_udid initial_locals (Some "ABC123"%string)) 1)).
  - reflexivity.
  - simpl. discriminate.
Defined.

(** X23.  When the device is obtained but the lockdown client is not,
    [main] prints the error with the library's message and code, frees the
    device, does not free a client, and returns -1.  The error goes to
    standard output in the assistive mode and to standard error in the
    query mode; the assistive mode always uses the handshake and the label
    [oa], the query mode the tool name and, with [-s], no handshake. *)
Theorem main_lockdown_refused (pkg : package) (usb : usb_layer)
        (lib : imobiledevice) (atoi : string -> Z) (argv0 : string)
        (answers : list getopt_answer) (tr : trace) (st : locals) :
  getopt_loop pkg usb atoi argv0 initial_locals answers = (tr, Break st) ->
  idevice_new_with_options lib (last_arg "u"%char answers)
    (has_option "n"%char answers) = IDEVICE_E_SUCCESS ->
  let assist := fst (last_assistive answers) =? 1 in
  let ldret :=
    if assist then lockdownd_client_new_with_handshake lib "oa"
    else if has_option "s"%char answers
         then lockdownd_client_new lib TOOL_NAME
         else lockdownd_client_new_with_handshake lib TOOL_NAME in
  ldret <> LOCKDOWN_E_SUCCESS ->
  main pkg usb lib atoi argv0 answers
  = (tr ++ [IdeviceNewWithOptions (last_arg "u"%char answers)
              (has_option "n"%char answers);
            (if assist then LockdowndClientNewWithHandshake "oa"
             else if has_option "s"%char answers
                  then LockdowndClientNew TOOL_NAME
                  else LockdowndClientNewWithHandshake TOOL_NAME);
            could_not_connect lib (if assist then stdout else stderr) ldret;
            IdeviceFree], -1).
Proof.
  intros E Hd assist ldret Hl. subst assist ldret.
  destruct (getopt_loop_break _ _ _ _ _ _ _ _ E) as [_ Hu].
  destruct (getopt_loop_locals _ _ _ _ _ _ _ _ E)
    as (_ & _ & _ & Hs & Hn & Has).
  change (udid st = last_arg "u"%char answers) in Hu.
  change (fold_left _ answers _) with (last_assistive answers) in Has.
  assert (Hfun : assistive_func st = fst (last_assistive answers))
    by now rewrite <- Has.
  assert (Hnet : negb (use_network st =? 0) = has_option "n"%char answers)
    by (rewrite Hn; now destruct (has_option "n"%char answers)).
  assert (Hsim : negb (simple st =? 0) = has_option "s"%char answers)
    by (rewrite Hs; now destruct (has_option "s"%char answers)).
  unfold main. rewrite E. unfold after_options, assistive, query.
  rewrite Hnet, Hsim, Hu, Hfun, Hd.
  destruct (fst (last_assistive answers) =? 1).
  - apply Z.eqb_neq in Hl. now rewrite Hl.
  - destruct (has_option "s"%char answers); cbv beta iota in Hl |- *;
      apply Z.eqb_neq in Hl; rewrite Z.eqb_sym in Hl; now rewrite Hl.
Qed.

Lemma main_lockdown_refused_witness :
  let answers := [("s"%char, EmptyString)] in
  let assist := fst (last_assistive answers) =? 1 in
  let ldret :=
    if assist then lockdownd_client_new_with_handshake Paired.refused "oa"
    else if has_option "s"%char answers
         then lockdownd_client_new Paired.refused TOOL_NAME
         else lockdownd_client_new_with_handshake Paired.refused TOOL_NAME in
  Paired.run Paired.refused answers
  = ([] ++ [IdeviceNewWithOptions (last_arg "u"%char answers)
              (has_option "n"%char answers);
            (if assist then LockdowndClientNewWithHandshake "oa"
             else if has_option "s"%char answers
                  then LockdowndClientNew TOOL_NAME
                  else LockdowndClientNewWithHandshake TOOL_NAME);
            could_not_connect Paired.refused
              (if assist then stdout else stderr) ldret;
            IdeviceFree], -1).
Proof.
  apply (main_lockdown_refused Scenario.pkg Scenario.one_phone Paired.refused
           Scenario.atoi "/usr/bin/ideviceinfo"
           [("s"%char, EmptyString)] [] (set_simple initial_locals 1)).
  - reflexivity.
  - reflexivity.
  - simpl. discriminate.
Defined.

(** * The resolver with [dev_serial] as memory *)

Section MemFacts.

Variable usb : usb_layer.
Variable pid : Z.
Variable u : string.

Lemma reads_succeed_tail (dev : usb_device) (devs : list usb_device) :
  reads_succeed usb pid (dev :: devs) -> reads_succeed usb pid devs.
Proof. intros H d h Hin. apply H. now right. Qed.

Lemma reads_succeed_app (l1 l2 : list usb_device) :
  reads_succeed usb pid (l1 ++ l2) ->
  reads_succeed usb pid l1 /\ reads_succeed usb pid l2.
Proof.
  intros H. split; intros d h Hin; apply H; apply in_or_app; auto.
Qed.

(** When the read does not fail, the array holds what the read wrote, and
    the turn of the loop is the one of [probe]. *)
Lemma probe_mem_agrees (dev_serial : string) (dev : usb_device)
      (h : usb_dev_handle) :
  0 <= fst (usb_get_string_simple usb h (iSerialNumber (descriptor dev)) 100) ->
  fst (probe_mem usb u dev_serial dev h) = probe usb u dev h.
Proof.
  unfold probe_mem, probe, read_serial.
  destruct (usb_get_string_simple usb h _ 100) as [ret written].
  intros H. simpl in *. destruct (Z.ltb_spec ret 0); [lia | reflexivity].
Qed.

Lemma scan_devices_mem_agrees (devs : list usb_device) :
  reads_succeed usb pid devs ->
  forall dev_serial,
    fst (scan_devices_mem usb pid u dev_serial devs)
    = scan_devices usb pid u devs.
Proof.
  induction devs as [|dev next IH]; intros Hr dev_serial; [reflexivity|].
  pose proof (IH (reads_succeed_tail _ _ Hr)) as IH'.
  simpl. destruct (candidate pid dev) eqn:Hc; simpl; [|apply IH'].
  destruct (usb_open usb dev) as [h|] eqn:Ho.
  - pose proof (probe_mem_agrees dev_serial dev h
                  (Hr dev h (or_introl eq_refl) Hc Ho)) as Hp.
    destruct (probe_mem usb u dev_serial dev h) as [[tr result] s'].
    simpl in Hp. rewrite <- Hp. destruct result; [reflexivity|].
    specialize (IH' s').
    destruct (scan_devices_mem usb pid u s' next) as [[tr' returned] final].
    simpl in IH'. now rewrite <- IH'.
  - specialize (IH' dev_serial).
    destruct (scan_devices_mem usb pid u dev_serial next)
      as [[tr' returned] final].
    simpl in IH'. now rewrite <- IH'.
Qed.

Lemma scan_busses_mem_agrees (bs : list usb_bus) :
  reads_succeed usb pid (List.concat (map devices bs)) ->
  forall dev_serial,
    fst (scan_busses_mem usb pid u dev_serial bs) = scan_busses usb pid u bs.
Proof.
  induction bs as [|bus next IH]; intros Hr dev_serial; [reflexivity|].
  simpl in Hr. apply reads_succeed_app in Hr as [Hb Hn].
  simpl. pose proof (scan_devices_mem_agrees _ Hb dev_serial) as Hd.
  destruct (scan_devices_mem usb pid u dev_serial (devices bus))
    as [[tr returned] s'].
  simpl in Hd. rewrite <- Hd. destruct returned; [reflexivity|].
  pose proof (IH Hn s') as Hs.
  destruct (scan_busses_mem usb pid u s' next) as [[tr' returned'] final].
  simpl in Hs. now rewrite <- Hs.
Qed.

End MemFacts.

Lemma find_driver_mem_agrees (usb : usb_layer) (pid : Z)
      (udid : option string) (stale : string) :
  reads_succeed usb pid (all_devices usb) ->
  find_driver_mem usb pid udid stale = find_driver usb pid udid.
Proof.
  intros Hr. destruct udid as [u|]; [|reflexivity].
  unfold find_driver_mem, find_driver.
  destruct (driver_major usb =? -1); [reflexivity|].
  pose proof (scan_busses_mem_agrees usb pid u (busses usb) Hr stale) as H.
  destruct (scan_busses_mem usb pid u stale (busses usb))
    as [[tr returned] final].
  simpl in H. now rewrite <- H.
Qed.

(** C1: at a failing read.  A single phone is attached and its string read
    fails with -5, so no attached device reports a serial string equal to
    the identity ABC123; the array holds the stale bytes ABC123, the test
    [if (ret)] passes, and TRUE is printed. *)
Theorem find_driver_true_without_match :
  (forall d, In d (all_devices Stale.one_failing) ->
             ~ spec_match Stale.one_failing 0x12a8 "ABC123" d) /\
  stdout_of (find_driver_mem Stale.one_failing 0x12a8 (Some "ABC123"%string)
               "ABC123") = "TRUE"%string /\
  find_driver_mem Stale.one_failing 0x12a8 (Some "ABC123"%string) "ABC123"
  = find_driver Scenario.failed_read 0x12a8 (Some "ABC123"%string).
Proof.
  split; [|split; reflexivity].
  intros d [<-|[]] (_ & _ & H). discriminate H.
Qed.

(** C8: at a failing read.  Two phones are attached; the string read of
    phone 1 fails with -5 and phone 2 reports XYZ; the array starts with
    the stale bytes ABC123 and the identity is ABC123.  With phone 1 listed
    first the stale bytes are compared and TRUE is printed; with phone 2
    listed first its XYZ is left in the array when phone 1 fails, and FALSE
    is printed.  The devices and their answers are the same in both runs. *)
Theorem find_driver_order_dependent :
  Permutation (all_devices Stale.failing_first)
              (all_devices (with_busses Stale.failing_first Stale.failing_last))
  /\
  stdout_of (find_driver_mem Stale.failing_first 0x12a8
               (Some "ABC123"%string) "ABC123") = "TRUE"%string /\
  stdout_of (find_driver_mem
               (with_busses Stale.failing_first Stale.failing_last) 0x12a8
               (Some "ABC123"%string) "ABC123") = "FALSE"%string.
Proof.
  split; [apply perm_swap | split; reflexivity].
Qed.

(** X24.  When no string read of a filtered device fails, the run of
    [find_driver] does not depend on the bytes the uninitialised array
    [dev_serial] held on entry: every read overwrites the array before it
    is compared. *)
Theorem find_driver_mem_ignores_stale_bytes (usb : usb_layer) (pid : Z)
        (udid : option string) (stale stale' : string) :
  reads_succeed usb pid (all_devices usb) ->
  find_driver_mem usb pid udid stale = find_driver_mem usb pid udid stale' /\
  find_driver_mem usb pid udid stale = find_driver usb pid udid.
Proof.
  intros Hr. now rewrite !find_driver_mem_agrees.
Qed.

Lemma find_driver_mem_ignores_stale_bytes_witness :
  find_driver_mem Scenario.two_phones 0x12a8 (Some "XYZ"%string) "XYZ"
  = find_driver_mem Scenario.two_phones 0x12a8 (Some "XYZ"%string) "ABC123" /\
  find_driver_mem Scenario.two_phones 0x12a8 (Some "XYZ"%string) "XYZ"
  = find_driver Scenario.two_phones 0x12a8 (Some "XYZ"%string).
Proof.
  apply (find_driver_mem_ignores_stale_bytes Scenario.two_phones 0x12a8
           (Some "XYZ"%string) "XYZ" "ABC123").
  intros d h [<-|[<-|[<-|[]]]] Hc Ho;
    try (vm_compute in Hc; discriminate Hc);
    inversion Ho; subst; simpl; lia.
Defined.

(** X25.  Away from failing reads the resolver is exact: with the driver
    present, a non-empty identity, no string read of a filtered device
    returning a negative value, and reads of length 0 having written the
    empty string, [find_driver] prints TRUE if and only if some enumerated
    device has vendor id 0x5ac, the queried product id and a serial-number
    string equal to the identity byte for byte, and prints FALSE otherwise,
    whatever the array held on entry. *)
Theorem find_driver_mem_true_iff (usb : usb_layer) (pid : Z) (u : string)
        (stale : string) :
  driver_major usb <> -1 ->
  c_str u <> EmptyString ->
  reads_succeed usb pid (all_devices usb) ->
  zero_read_is_empty usb pid (all_devices usb) ->
  (stdout_of (find_driver_mem usb pid (Some u) stale) = "TRUE"%string <->
   exists d, In d (all_devices usb) /\ spec_match usb pid u d) /\
  (stdout_of (find_driver_mem usb pid (Some u) stale) = "TRUE"%string \/
   stdout_of (find_driver_mem usb pid (Some u) stale) = "FALSE"%string).
Proof.
  intros Hd Hu Hr Hz.
  rewrite (find_driver_mem_agrees usb pid (Some u) stale Hr).
  assert (Hiff : existsb (accepts usb pid u) (all_devices usb) = true <->
                 exists d, In d (all_devices usb) /\ spec_match usb pid u d).
  { rewrite existsb_exists. unfold spec_match, serial_descriptor. split.
    - intros (d & Hin & Ha). apply accepts_spec in Ha.
      destruct Ha as (Hv & Hp & h & Ho & Hn & Hs).
      pose proof (Hr d h Hin (proj2 (candidate_spec pid d) (conj Hv Hp)) Ho)
        as Hpos.
      exists d. split; [assumption|]. rewrite Ho.
      split; [assumption|]. split; [assumption|].
      destruct (usb_get_string_simple usb h _ 100) as [ret buf]. simpl in *.
      destruct (Z.leb_spec 0 ret); [now rewrite Hs | lia].
    - intros (d & Hin & Hv & Hp & Hs). exists d. split; [assumption|].
      apply accepts_spec. split; [assumption|]. split; [assumption|].
      destruct (usb_open usb d) as [h|] eqn:Ho; [|discriminate].
      exists h. split; [reflexivity|].
      pose proof (Hz d h Hin (proj2 (candidate_spec pid d) (conj Hv Hp)) Ho)
        as Hzero.
      destruct (usb_get_string_simple usb h _ 100) as [ret buf]. simpl in *.
      destruct (0 <=? ret); [|discriminate]. injection Hs as Hb.
      split; [|exact Hb]. intros E. apply Hu. rewrite <- Hb. now apply Hzero. }
  rewrite find_driver_stdout by assumption.
  destruct (existsb (accepts usb pid u) (all_devices usb)); split.
  - split; [intros _; now apply Hiff | reflexivity].
  - now left.
  - split; [discriminate | intros Hf; apply Hiff in Hf; discriminate].
  - now right.
Qed.

Lemma find_driver_mem_true_iff_witness :
  (stdout_of (find_driver_mem Scenario.two_phones 0x12a8
                (Some "XYZ"%string) "ABC123") = "TRUE"%string <->
   exists d, In d (all_devices Scenario.two_phones) /\
             spec_match Scenario.two_phones 0x12a8 "XYZ" d) /\
  (stdout_of (find_driver_mem Scenario.two_phones 0x12a8
                (Some "XYZ"%string) "ABC123") = "TRUE"%string \/
   stdout_of (find_driver_mem Scenario.two_phones 0x12a8
                (Some "XYZ"%string) "ABC123") = "FALSE"%string).
Proof.
  apply (find_driver_mem_true_iff Scenario.two_phones 0x12a8 "XYZ" "ABC123").
  - simpl. discriminate.
  - discriminate.
  - intros d h [<-|[<-|[<-|[]]]] Hc Ho;
      try (vm_compute in Hc; discriminate Hc);
      inversion Ho; subst; simpl; lia.
  - intros d h [<-|[<-|[<-|[]]]] Hc Ho Hz;
      try (vm_compute in Hc; discriminate Hc);
      inversion Ho; subst; vm_compute in Hz; discriminate Hz.
Defined.

(** X26.  Away from failing reads the order of enumeration does not
    matter: if no string read of a filtered device returns a negative
    value, then replacing the busses by busses that hold a permutation of
    the same devices leaves the printed literal unchanged, whatever the
    array held on entry in either run. *)
Theorem find_driver_mem_order_irrelevant (usb : usb_layer)
        (bs : list usb_bus) (pid : Z) (udid : option string)
        (stale stale' : string) :
  reads_succeed usb pid (all_devices usb) ->
  Permutation (all_devices usb) (all_devices (with_busses usb bs)) ->
  stdout_of (find_driver_mem (with_busses usb bs) pid udid stale')
  = stdout_of (find_driver_mem usb pid udid stale).
Proof.
  intros Hr Hperm.
  assert (Hr' : reads_succeed (with_busses usb bs) pid
                  (all_devices (with_busses usb bs))).
  { intros d h Hin. apply (Hr d h).
    apply (Permutation_in d (Permutation_sym Hperm) Hin). }
  rewrite (find_driver_mem_agrees _ _ _ _ Hr'),
    (find_driver_mem_agrees _ _ _ _ Hr).
  destruct udid as [u|]; [|reflexivity].
  destruct (Z.eq_dec (driver_major usb) (-1)) as [E|E].
  - unfold find_driver. simpl driver_major. now rewrite E.
  - rewrite !find_driver_stdout by assumption.
    now rewrite (existsb_Permutation _ _ _ Hperm).
Qed.

Lemma find_driver_mem_order_irrelevant_witness :
  stdout_of
    (find_driver_mem
       (with_busses Scenario.two_phones Scenario.two_phones_reordered)
       0x12a8 (Some "XYZ"%string) "ABC123")
  = stdout_of
      (find_driver_mem Scenario.two_phones 0x12a8 (Some "XYZ"%string) "XYZ").
Proof.
  apply (find_driver_mem_order_irrelevant Scenario.two_phones
           Scenario.two_phones_reordered 0x12a8 (Some "XYZ"%string)
           "XYZ" "ABC123").
  - intros d h [<-|[<-|[<-|[]]]] Hc Ho;
      try (vm_compute in Hc; discriminate Hc);
      inversion Ho; subst; simpl; lia.
  - change (Permutation [Scenario.hub; Scenario.iphone 1; Scenario.iphone 2]
              [Scenario.iphone 2; Scenario.iphone 1; Scenario.hub]).
    apply perm_trans with [Scenario.iphone 2; Scenario.hub; Scenario.iphone 1].
    + apply Permutation_sym.
      apply (Permutation_cons_append [Scenario.hub; Scenario.iphone 1]).
    + apply perm_skip. apply perm_swap.
Defined.
